(** * Fusion legality: the relative-judge policy of the CINN operator-fusion pass

    A shallow embedding of
    [paddle/cinn/operator_fusion/policy/relative_judge_policy.cc]
    and the properties of its splitters, shape predicates, merge rules and
    dispatcher. *)

From Stdlib Require Import ZArith.
From stdpp Require Import base option list gmap strings.

Set Warnings "-register-all".

Local Open Scope Z_scope.
Local Open Scope nat_scope.

(** ** Results of fallible calls

    The source signals an unrecoverable condition by throwing.  A call either
    returns a value or ends in one of these fatal conditions. *)

Inductive Error : Type :=
  | IllegalCall        (* PADDLE_THROW("Illegal Call GetFakeReduceIterIdx") *)
  | InvalidArgument    (* PADDLE_ENFORCE_EQ of FindUserOp *)
  | BadVariantAccess   (* std::get on a variant holding another alternative *)
  | OutOfRange.        (* operand, result or vector entry 0 that does not exist *)

Inductive Result (A : Type) : Type :=
  | Ok (a : A)
  | Fatal (e : Error).

Arguments Ok {A} a.
Arguments Fatal {A} e.

#[global] Instance Result_ret : MRet Result := fun _ a => Ok a.

#[global] Instance Result_bind : MBind Result := fun _ _ f m =>
  match m with
  | Ok a => f a
  | Fatal e => Fatal e
  end.

Definition from_option {A : Type} (e : Error) (o : option A) : Result A :=
  match o with
  | Some a => Ok a
  | None => Fatal e
  end.

(** ** The operation graph *)

(** [pir::Value] and [pir::Operation*] are handles compared by identity. *)
Definition Value : Type := nat.
Definition Operation : Type := nat.

(** One dimension of one value as seen from one of its consumption edges:
    the fields [v_], [idx_] and [usage_idx_] of the source's [DimUsage]. *)
Record DimUsage : Type := mkDimUsage {
  v_ : Value;
  idx_ : nat;
  usage_idx_ : nat
}.

#[global] Instance DimUsage_eq_dec : EqDecision DimUsage.
Proof. solve_decision. Defined.

#[global] Instance DimUsage_countable : Countable DimUsage :=
  inj_countable'
    (fun d => (v_ d, idx_ d, usage_idx_ d))
    (fun t => mkDimUsage t.1.1 t.1.2 t.2)
    (fun d => match d with mkDimUsage _ _ _ => eq_refl end).

(** The axis names of one operand or result, and the signature of an
    operation: [signature.inputs[0].axis_names] in the source. *)
Record ShardableAxes : Type := mkShardableAxes {
  axis_names : list string
}.

Record ShardableAxesSignature : Type := mkSignature {
  inputs : list ShardableAxes;
  outputs : list ShardableAxes
}.

(** The graph queries the policy makes: operand and result lists, the owners
    of the use edges of a value in use-list order
    ([value.use_begin() .. value.use_end()], [owner()]), the position of an
    operation among the uses of a value and the rank of a value. *)
Record Graph : Type := mkGraph {
  operands : Operation -> list Value;
  results : Operation -> list Value;
  uses : Value -> list Operation;
  GetUsageIdx : Value -> Operation -> nat;
  GetRank : Value -> nat
}.

(** [op->operand_source(i)] and [op->result(i)]. *)
Definition operand_source (G : Graph) (op : Operation) (i : nat) : Result Value :=
  from_option OutOfRange (operands G op !! i).

Definition result (G : Graph) (op : Operation) (i : nat) : Result Value :=
  from_option OutOfRange (results G op !! i).

(** Modelled from the spec: the dimension usages of a value at one usage index,
    one [DimUsage] per axis of the value, in axis order ([GetValueUsage] is
    declared outside this file). *)
Definition GetValueUsage (G : Graph) (v : Value) (usage_idx : nat) : list DimUsage :=
  (fun i => mkDimUsage v i usage_idx) <$> seq 0 (GetRank G v).

(** ** The shape-analysis oracle *)

(** A [vector<int>] entry built from a [size_t]: the value wraps to 32 bits,
    two's complement. *)
Definition to_int (n : nat) : Z :=
  ((Z.of_nat n + 2 ^ 31) mod 2 ^ 32 - 2 ^ 31)%Z.

(** What the policy asks of symbolic dimension expressions: the symbolic size
    of a usage, pointwise symbolic equality of two usages, the product of some
    axes of a value, provable equality of two expressions, and the [int64_t]
    alternative of an expression ([isa<int64_t>] with [std::get<int64_t>], and
    the conversion from an integer literal). *)
Record ShapeAnalysis (DimExpr : Type) : Type := mkShapeAnalysis {
  GetSymbolicDim : DimUsage -> DimExpr;
  SymbolicEqualTo : DimUsage -> DimUsage -> bool;
  GetProductDimExpr : Value -> list Z -> DimExpr;
  IsEqual : DimExpr -> DimExpr -> bool;
  as_int64 : DimExpr -> option Z;
  of_int64 : Z -> DimExpr
}.

Arguments GetSymbolicDim {DimExpr} _ _.
Arguments SymbolicEqualTo {DimExpr} _ _ _.
Arguments GetProductDimExpr {DimExpr} _ _ _.
Arguments IsEqual {DimExpr} _ _ _.
Arguments as_int64 {DimExpr} _ _.
Arguments of_int64 {DimExpr} _ _.

(** ** Patterns *)

(** Modelled from the spec: the closed variant of statement patterns.  A
    trivial pattern is a chain of operations; a reduce pattern is one reduction
    operation plus its trivial producers; a reduce tree is a root reduce
    pattern plus the child trees feeding it. *)
Record TrivialPattern : Type := mkTrivialPattern {
  trivial_ops : list Operation
}.

Record ReducePattern : Type := mkReducePattern {
  producer_ops : list Operation;
  GetReduceOp : Operation
}.

Inductive ReduceTreePattern : Type :=
  | mkReduceTree (childs_ : list ReduceTreePattern) (root_ : ReducePattern).

Inductive StmtPattern : Type :=
  | Trivial (p : TrivialPattern)
  | Reduce (p : ReducePattern)
  | ReduceTree (p : ReduceTreePattern).

Record PatternNode : Type := mkPatternNode {
  stmt_pattern : StmtPattern;
  sink_op : Operation
}.

Definition reduce_pattern_ops (p : ReducePattern) : list Operation :=
  producer_ops p ++ [GetReduceOp p].

Definition GetRootPattern (t : ReduceTreePattern) : ReducePattern :=
  match t with mkReduceTree _ r => r end.

Definition childs (t : ReduceTreePattern) : list ReduceTreePattern :=
  match t with mkReduceTree cs _ => cs end.

(** Modelled from the spec: all reduce patterns of the tree, pre-order. *)
Fixpoint FlattenReducePattern (t : ReduceTreePattern) : list ReducePattern :=
  match t with
  | mkReduceTree cs r =>
      r :: (fix flatten_childs (l : list ReduceTreePattern) : list ReducePattern :=
              match l with
              | [] => []
              | c :: l' => FlattenReducePattern c ++ flatten_childs l'
              end) cs
  end.

(** Modelled from the spec: all constituent operations of the tree. *)
Definition tree_ops (t : ReduceTreePattern) : list Operation :=
  concat (reduce_pattern_ops <$> FlattenReducePattern t).

(** [std::holds_alternative] and [std::get] on the pattern variant. *)
Definition holds_ReduceTreePattern (p : StmtPattern) : bool :=
  match p with ReduceTree _ => true | _ => false end.

Definition holds_TrivialPattern (p : StmtPattern) : bool :=
  match p with Trivial _ => true | _ => false end.

Definition get_ReduceTreePattern (p : StmtPattern) : Result ReduceTreePattern :=
  match p with
  | ReduceTree t => Ok t
  | _ => Fatal BadVariantAccess
  end.

(** The members of the policy object: the signature table [axes_info_], the
    relatedness relation [IsRelated] and the input values of a pattern. *)
Record Policy : Type := mkPolicy {
  GetSignature : Operation -> ShardableAxesSignature;
  IsRelated : DimUsage -> DimUsage -> bool;
  GetPatternInputValues : StmtPattern -> list Value
}.

(** ** The policy *)

Section RelativeJudgePolicy.

Context {DimExpr : Type} `{Countable DimExpr}.
Variable SA : ShapeAnalysis DimExpr.
Variable G : Graph.
Variable P : Policy.

Definition IsDownstreamStmtDependReduceOp
    (reduce : Operation) (downstream : StmtPattern) : bool :=
  let values := GetPatternInputValues P downstream in
  existsb (fun value => bool_decide (value ∈ values)) (results G reduce).

Fixpoint GetDownstreamFromCandidate_loop
    (reduce : Operation) (candidates : list ReducePattern) : option ReducePattern :=
  match candidates with
  | [] => None
  | candidate :: rest =>
      if IsDownstreamStmtDependReduceOp reduce (Reduce candidate)
      then Some candidate
      else GetDownstreamFromCandidate_loop reduce rest
  end.

Definition GetDownstreamFromCandidate
    (upstream : ReducePattern) (candidates : list ReducePattern) : option ReducePattern :=
  let reduce := GetReduceOp upstream in
  GetDownstreamFromCandidate_loop reduce candidates.

(** State of the loop of [SplitReduceDims]: [idx], [reduce_dims] and
    [non_reduce_dims]. *)
Definition SplitReduceDims_step
    (v : Value) (usage_idx : nat) (output_names_set : gset string)
    (st : nat * list DimUsage * list DimUsage) (name : string)
    : nat * list DimUsage * list DimUsage :=
  let '(idx, reduce_dims, non_reduce_dims) := st in
  if decide (name ∈ output_names_set)
  then (idx + 1, reduce_dims, non_reduce_dims ++ [mkDimUsage v idx usage_idx])
  else (idx + 1, reduce_dims ++ [mkDimUsage v idx usage_idx], non_reduce_dims).

Definition SplitReduceDims (signature : ShardableAxesSignature) (op : Operation)
    : Result (list DimUsage * list DimUsage) :=
  v ← operand_source G op 0;
  input ← from_option OutOfRange (inputs signature !! 0);
  output ← from_option OutOfRange (outputs signature !! 0);
  let input_names := axis_names input in
  let output_names := axis_names output in
  let output_names_set : gset string := list_to_set output_names in
  let usage_idx := GetUsageIdx G v op in
  let '(_, reduce_dims, non_reduce_dims) :=
    fold_left (SplitReduceDims_step v usage_idx output_names_set)
              input_names (0, [], []) in
  Ok (reduce_dims, non_reduce_dims).

(** The inner loop of [SplitFirstIfRelatedBySecond]: it scans all of
    [related_with] and never leaves early. *)
Definition is_related_to (related_with : list DimUsage) (target_dim : DimUsage) : bool :=
  fold_left
    (fun is_related related_dim =>
       if IsRelated P related_dim target_dim then true else is_related)
    related_with false.

Definition SplitFirstIfRelatedBySecond (targets related_with : list DimUsage)
    : list DimUsage * list DimUsage :=
  fold_left
    (fun '(related_dims, non_related_dims) target_dim =>
       if is_related_to related_with target_dim
       then (related_dims ++ [target_dim], non_related_dims)
       else (related_dims, non_related_dims ++ [target_dim]))
    targets ([], []).

(** [GetDimInfo]: the number of occurrences of each symbolic size, an
    [unordered_map<symbol::DimExpr, int>].  The counters are bounded by the
    length of the list, far below the range of [int]. *)
Definition GetDimInfo (dims : list DimUsage) : gmap DimExpr Z :=
  fold_left
    (fun (result : gmap DimExpr Z) dim =>
       let value := GetSymbolicDim SA dim in
       match result !! value with
       | None => <[value := 1%Z]> result
       | Some count => <[value := (count + 1)%Z]> result
       end)
    dims ∅.

Definition ElementwiseEqual (first second : list DimUsage) : bool :=
  let first_dims := GetDimInfo first in
  let second_dims := GetDimInfo second in
  if decide (size first_dims ≠ size second_dims) then false
  else
    forallb
      (fun '(dim_value, count) =>
         match second_dims !! dim_value with
         | None => false
         | Some count' => bool_decide (count' = count)
         end)
      (map_to_list first_dims).

Definition GetProductDimExprForValueDims (dims : list DimUsage) : DimExpr :=
  match dims with
  | [] => of_int64 SA 0%Z
  | dim0 :: _ =>
      let dim_idx := (fun dim => to_int (idx_ dim)) <$> dims in
      GetProductDimExpr SA (v_ dim0) dim_idx
  end.

Definition IsProductSmallerOrEqual (first second : list DimUsage) : bool :=
  match first with
  | [] => true
  | _ :: _ =>
      let first_product := GetProductDimExprForValueDims first in
      let second_product := GetProductDimExprForValueDims second in
      match as_int64 SA second_product, as_int64 SA first_product with
      | Some s, Some f => (f <=? s)%Z
      | _, _ => IsEqual SA first_product second_product
      end
  end.

Definition FindUserOp (candidates : list Operation) (value : Value) : Result Operation :=
  let results :=
    fold_left
      (fun results user_op =>
         if decide (user_op ∈ candidates) then results ++ [user_op] else results)
      (uses G value) [] in
  if decide (length results = 1)
  then from_option OutOfRange (head results)
  else Fatal InvalidArgument.

Definition ReduceTreeGrownCanMerge (upstream downstream : PatternNode) : Result bool :=
  upstream_tree ← get_ReduceTreePattern (stmt_pattern upstream);
  downstream_tree ← get_ReduceTreePattern (stmt_pattern downstream);
  let maybe_downstream_op :=
    GetDownstreamFromCandidate (GetRootPattern upstream_tree)
                               (FlattenReducePattern downstream_tree) in
  match maybe_downstream_op with
  | None => Ok false
  | Some candidate =>
      reduce_out_value ← result G (GetReduceOp (GetRootPattern upstream_tree)) 0;
      downstream_connect_op ← FindUserOp (tree_ops downstream_tree) reduce_out_value;
      let downstream_reduce_op := GetReduceOp candidate in
      '(downstream_reduce_dims, _) ←
        SplitReduceDims (GetSignature P downstream_reduce_op) downstream_reduce_op;
      let upstream_output_dims :=
        GetValueUsage G reduce_out_value
                      (GetUsageIdx G reduce_out_value downstream_connect_op) in
      let '(related, _) :=
        SplitFirstIfRelatedBySecond downstream_reduce_dims upstream_output_dims in
      Ok (bool_decide (length related = 0))
  end.

(** Modelled from the spec: the entries of [source] whose positions are not
    listed in [idx], in order ([GatherVectorExcept] is declared outside this
    file). *)
Definition GatherVectorExcept {A : Type} (source : list A) (idx : list nat) : list A :=
  snd <$> filter (fun p => p.1 ∉ idx) (imap pair source).

(** The inner loop of [GetFakeReduceIterIdx]: the first reordered dimension
    that is not yet visited and symbolically equal to [reduce_dim]. *)
Fixpoint find_fake (visited_dims : gset DimUsage) (reduce_dim : DimUsage)
    (trivial_reorder_dims : list DimUsage) : option DimUsage :=
  match trivial_reorder_dims with
  | [] => None
  | trivial_dim :: rest =>
      if bool_decide (trivial_dim ∉ visited_dims)
         && SymbolicEqualTo SA trivial_dim reduce_dim
      then Some trivial_dim
      else find_fake visited_dims reduce_dim rest
  end.

Definition fake_step (trivial_reorder_dims : list DimUsage)
    (st : gset DimUsage * list nat) (reduce_dim : DimUsage)
    : gset DimUsage * list nat :=
  let '(visited_dims, result) := st in
  match find_fake visited_dims reduce_dim trivial_reorder_dims with
  | Some trivial_dim => ({[trivial_dim]} ∪ visited_dims, result ++ [idx_ trivial_dim])
  | None => (visited_dims, result)
  end.

Definition GetFakeReduceIterIdx (upstream downstream : PatternNode) : Result (list nat) :=
  if negb (holds_ReduceTreePattern (stmt_pattern upstream))
     && negb (holds_TrivialPattern (stmt_pattern downstream))
  then Fatal IllegalCall
  else
    '(upstream_reduce_dims, upstream_non_reduce_dims) ←
      SplitReduceDims (GetSignature P (sink_op upstream)) (sink_op upstream);
    out ← result G (sink_op downstream) 0;
    let '(_, trivial_reorder_dims) :=
      SplitFirstIfRelatedBySecond (GetValueUsage G out 0) upstream_non_reduce_dims in
    let '(_, result) :=
      fold_left (fake_step trivial_reorder_dims) upstream_reduce_dims (∅, []) in
    Ok result.

Definition ReducePlusTrivialCanMerge (upstream downstream : PatternNode) : Result bool :=
  '(upstream_reduce_dims, upstream_non_reduce_dims) ←
    SplitReduceDims (GetSignature P (sink_op upstream)) (sink_op upstream);
  out ← result G (sink_op downstream) 0;
  let '(_, non_related_dims) :=
    SplitFirstIfRelatedBySecond (GetValueUsage G out 0) upstream_non_reduce_dims in
  fakes ← GetFakeReduceIterIdx upstream downstream;
  let downstream_free_dims := GatherVectorExcept (GetValueUsage G out 0) fakes in
  Ok (ElementwiseEqual non_related_dims upstream_reduce_dims
      || IsProductSmallerOrEqual downstream_free_dims upstream_non_reduce_dims).

Definition CanFuse (upstream downstream : PatternNode) : Result bool :=
  if holds_ReduceTreePattern (stmt_pattern upstream)
     && holds_TrivialPattern (stmt_pattern downstream)
  then ReducePlusTrivialCanMerge upstream downstream
  else if holds_ReduceTreePattern (stmt_pattern upstream)
          && holds_ReduceTreePattern (stmt_pattern downstream)
  then ReduceTreeGrownCanMerge upstream downstream
  else Ok true.

End RelativeJudgePolicy.

(** ** Vocabulary of the specification *)

(** The input axes of a reduction with their dimension usages: the axis named
    [name] at position [i] of the operand [v] is [mkDimUsage v i usage_idx]. *)
Definition named_dims (v : Value) (usage_idx : nat) (input_names : list string)
    : list (string * DimUsage) :=
  imap (fun i name => (name, mkDimUsage v i usage_idx)) input_names.

Definition input_dims (v : Value) (usage_idx : nat) (input_names : list string)
    : list DimUsage :=
  snd <$> named_dims v usage_idx input_names.

(** The symbolic sizes of a list of dimension usages, and the number of
    usages of the list whose symbolic size is [k]. *)
Definition symbolic_sizes {DimExpr : Type} (SA : ShapeAnalysis DimExpr)
    (dims : list DimUsage) : list DimExpr :=
  GetSymbolicDim SA <$> dims.

Definition occurrences {DimExpr : Type} `{EqDecision DimExpr}
    (SA : ShapeAnalysis DimExpr) (k : DimExpr) (dims : list DimUsage) : nat :=
  count_occ (decide_rel (=)) (symbolic_sizes SA dims) k.

(** The loop of [GetFakeReduceIterIdx] with the pairs it matches: next to the
    visited set it records, for every index the source appends, the upstream
    reduced dimension and the reordered dimension matched to it. *)
Definition fake_match_step {DimExpr : Type} (SA : ShapeAnalysis DimExpr)
    (trivial_reorder_dims : list DimUsage)
    (st : gset DimUsage * list (DimUsage * DimUsage)) (reduce_dim : DimUsage)
    : gset DimUsage * list (DimUsage * DimUsage) :=
  let '(visited_dims, matched) := st in
  match find_fake SA visited_dims reduce_dim trivial_reorder_dims with
  | Some trivial_dim =>
      ({[trivial_dim]} ∪ visited_dims, matched ++ [(reduce_dim, trivial_dim)])
  | None => (visited_dims, matched)
  end.

Definition fake_matching {DimExpr : Type} (SA : ShapeAnalysis DimExpr)
    (trivial_reorder_dims upstream_reduce_dims : list DimUsage)
    : list (DimUsage * DimUsage) :=
  (fold_left (fake_match_step SA trivial_reorder_dims) upstream_reduce_dims (∅, [])).2.





(** [l1] and [l2] split [l]: together they hold the elements of [l] with their
    multiplicities, each keeps the order of [l], and they share no element. *)
Definition is_partition_of {A : Type} (l l1 l2 : list A) : Prop :=
  l1 ++ l2 ≡ₚ l /\ l1 `sublist_of` l /\ l2 `sublist_of` l
  /\ (forall x, x ∈ l1 -> x ∉ l2).

(** ** A concrete program

    [x : S x N] is summed over its second axis by operation 10; the sum [r] is
    consumed by [exp] (11), [sin] (13) and a broadcasting operation (20);
    operation 12 sums [exp r], operation 14 adds [exp r] and [sin r] and
    operation 15 sums that. *)

Module Scenario.

(** Symbolic sizes are monomials: a static factor and the symbols it is
    multiplied with. *)
Definition Dim : Type := (Z * list string)%type.

Definition x : Value := 0.
Definition r : Value := 1.
Definition exp_r : Value := 2.
Definition sum_exp : Value := 3.
Definition sin_r : Value := 4.
Definition both : Value := 5.
Definition wide : Value := 6.
Definition sum_both : Value := 7.

Definition shape (v : Value) : list Dim :=
  match v with
  | 0 => [(1%Z, ["S"%string]); (1%Z, ["N"%string])]
  | 1 | 2 | 4 | 5 => [(1%Z, ["S"%string])]
  | 6 => [(1%Z, ["S"%string]); (1%Z, ["S"%string]); (1%Z, ["N"%string])]
  | _ => []
  end.

Definition graph : Graph := {|
  operands := fun op =>
    match op with
    | 10 => [x] | 11 => [r] | 12 => [exp_r] | 13 => [r]
    | 14 => [exp_r; sin_r] | 15 => [both] | 20 => [r]
    | _ => []
    end;
  results := fun op =>
    match op with
    | 10 => [r] | 11 => [exp_r] | 12 => [sum_exp] | 13 => [sin_r]
    | 14 => [both] | 15 => [sum_both] | 20 => [wide]
    | _ => []
    end;
  uses := fun v =>
    match v with
    | 0 => [10] | 1 => [11; 13; 20] | 2 => [12; 14] | 4 => [14] | 5 => [15]
    | _ => []
    end;
  GetUsageIdx := fun v op =>
    match v, op with
    | 1, 13 => 1 | 1, 20 => 2 | 2, 14 => 1
    | _, _ => 0
    end;
  GetRank := fun v => length (shape v)
|}.

Definition mul (a b : Dim) : Dim := ((a.1 * b.1)%Z, a.2 ++ b.2).

Definition product (v : Value) (dim_idx : list Z) : Dim :=
  fold_left (fun acc i => mul acc (nth (Z.to_nat i) (shape v) (1%Z, [])))
            dim_idx (1%Z, []).

Definition analysis : ShapeAnalysis Dim := {|
  GetSymbolicDim := fun d => product (v_ d) [to_int (idx_ d)];
  SymbolicEqualTo := fun a b =>
    bool_decide (product (v_ a) [to_int (idx_ a)] = product (v_ b) [to_int (idx_ b)]);
  GetProductDimExpr := product;
  IsEqual := fun a b => bool_decide (a = b);
  as_int64 := fun a => match a.2 with [] => Some a.1 | _ => None end;
  of_int64 := fun z => (z, [])
|}.

(** Static shapes [4; 8] (value 0), [4; 2] (value 1) for the product
    predicate. *)
Definition static_shape (v : Value) : list Z :=
  match v with
  | 0 => [4; 8]%Z
  | 1 => [4; 2]%Z
  | _ => []
  end.

Definition static_analysis : ShapeAnalysis Z := {|
  GetSymbolicDim := fun d => nth (idx_ d) (static_shape (v_ d)) 1%Z;
  SymbolicEqualTo := fun a b =>
    bool_decide (nth (idx_ a) (static_shape (v_ a)) 1%Z
                 = nth (idx_ b) (static_shape (v_ b)) 1%Z);
  GetProductDimExpr := fun v dim_idx =>
    fold_left (fun acc i => (acc * nth (Z.to_nat i) (static_shape v) 1)%Z)
              dim_idx 1%Z;
  IsEqual := fun a b => bool_decide (a = b);
  as_int64 := fun a => Some a;
  of_int64 := fun z => z
|}.

Definition pattern_ops (p : StmtPattern) : list Operation :=
  match p with
  | Trivial t => trivial_ops t
  | Reduce rp => reduce_pattern_ops rp
  | ReduceTree t => tree_ops t
  end.

(** The operands of the operations of a pattern that no operation of the
    pattern produces. *)
Definition input_values (p : StmtPattern) : list Value :=
  filter (fun v => v ∉ concat (results graph <$> pattern_ops p))
         (concat (operands graph <$> pattern_ops p)).

Definition signature_of (op : Operation) : ShardableAxesSignature :=
  match op with
  | 10 => mkSignature [mkShardableAxes ["i"; "j"]%string] [mkShardableAxes ["i"%string]]
  | 12 | 15 => mkSignature [mkShardableAxes ["i"%string]] [mkShardableAxes []]
  | _ => mkSignature [] []
  end.

(** [exp] keeps the axis of [r]; both leading axes of the broadcast value come
    from the preserved axis of [x]. *)
Definition related (p d : DimUsage) : bool :=
  match v_ p, idx_ p, v_ d, idx_ d with
  | 1, 0, 2, 0 => true
  | 0, 0, 6, 0 => true
  | 0, 0, 6, 1 => true
  | _, _, _, _ => false
  end.

Definition policy (rel : DimUsage -> DimUsage -> bool) : Policy := {|
  GetSignature := signature_of;
  IsRelated := rel;
  GetPatternInputValues := input_values
|}.

Definition upstream_tree : ReduceTreePattern :=
  mkReduceTree [] (mkReducePattern [] 10).

Definition chain_tree : ReduceTreePattern :=
  mkReduceTree [] (mkReducePattern [11] 12).

Definition diamond_tree : ReduceTreePattern :=
  mkReduceTree [] (mkReducePattern [11; 13; 14] 15).

Definition upstream_node : PatternNode := mkPatternNode (ReduceTree upstream_tree) 10.
Definition chain_node : PatternNode := mkPatternNode (ReduceTree chain_tree) 12.
Definition diamond_node : PatternNode := mkPatternNode (ReduceTree diamond_tree) 15.
Definition wide_node : PatternNode :=
  mkPatternNode (Trivial (mkTrivialPattern [20])) 20.
Definition lone_reduce_node : PatternNode :=
  mkPatternNode (Reduce (mkReducePattern [] 10)) 10.

(** A second program: operation 30 multiplies value 0 with itself; operation
    40 sums value 2 to the scalar 3, which operation 41 consumes. *)
Definition small_graph : Graph := {|
  operands := fun op =>
    match op with
    | 30 => [0; 0] | 40 => [2] | 41 => [3]
    | _ => []
    end;
  results := fun op =>
    match op with
    | 30 => [1] | 40 => [3] | 41 => [4]
    | _ => []
    end;
  uses := fun v =>
    match v with
    | 0 => [30; 30] | 2 => [40] | 3 => [41]
    | _ => []
    end;
  GetUsageIdx := fun _ _ => 0;
  GetRank := fun v =>
    match v with
    | 0 | 1 | 2 => 1
    | _ => 0
    end
|}.

Definition small_policy : Policy := {|
  GetSignature := fun op =>
    match op with
    | 40 => mkSignature [mkShardableAxes ["i"%string]] [mkShardableAxes []]
    | 41 => mkSignature [mkShardableAxes []] [mkShardableAxes []]
    | _ => mkSignature [] []
    end;
  IsRelated := fun _ _ => true;
  GetPatternInputValues := fun p =>
    filter (fun v => v ∉ concat (results small_graph <$> pattern_ops p))
           (concat (operands small_graph <$> pattern_ops p))
|}.

Definition scalar_upstream_tree : ReduceTreePattern :=
  mkReduceTree [] (mkReducePattern [] 40).
Definition scalar_downstream_tree : ReduceTreePattern :=
  mkReduceTree [] (mkReducePattern [] 41).
Definition scalar_upstream_node : PatternNode :=
  mkPatternNode (ReduceTree scalar_upstream_tree) 40.
Definition scalar_downstream_node : PatternNode :=
  mkPatternNode (ReduceTree scalar_downstream_tree) 41.

(** The signature of the first sum with its output axis listed twice. *)
Definition repeated_output_signature : ShardableAxesSignature :=
  mkSignature [mkShardableAxes ["i"; "j"]%string]
              [mkShardableAxes ["i"; "i"]%string].

(** A third program: next to the consumers above, operation 22 subtracts the
    sum [r] from [x] and gives [centered : S x N]. *)
Definition centered : Value := 9.

Definition centered_shape (v : Value) : list Dim :=
  match v with
  | 9 => [(1%Z, ["S"%string]); (1%Z, ["N"%string])]
  | _ => shape v
  end.

Definition centered_graph : Graph := {|
  operands := fun op =>
    match op with
    | 22 => [x; r]
    | _ => operands graph op
    end;
  results := fun op =>
    match op with
    | 22 => [centered]
    | _ => results graph op
    end;
  uses := fun v =>
    match v with
    | 0 => [10; 22]
    | 1 => [11; 13; 20; 22]
    | _ => uses graph v
    end;
  GetUsageIdx := fun v op =>
    match v, op with
    | 0, 22 => 1
    | 1, 22 => 3
    | _, _ => GetUsageIdx graph v op
    end;
  GetRank := fun v => length (centered_shape v)
|}.

Definition centered_product (v : Value) (dim_idx : list Z) : Dim :=
  fold_left (fun acc i => mul acc (nth (Z.to_nat i) (centered_shape v) (1%Z, [])))
            dim_idx (1%Z, []).

Definition centered_analysis : ShapeAnalysis Dim := {|
  GetSymbolicDim := fun d => centered_product (v_ d) [to_int (idx_ d)];
  SymbolicEqualTo := fun a b =>
    bool_decide (centered_product (v_ a) [to_int (idx_ a)]
                 = centered_product (v_ b) [to_int (idx_ b)]);
  GetProductDimExpr := centered_product;
  IsEqual := fun a b => bool_decide (a = b);
  as_int64 := fun a => match a.2 with [] => Some a.1 | _ => None end;
  of_int64 := fun z => (z, [])
|}.

Definition centered_node : PatternNode :=
  mkPatternNode (Trivial (mkTrivialPattern [22])) 22.

(** The second program with operation 42, which takes the square root of the
    scalar 3 and gives the scalar 5. *)
Definition scalar_graph : Graph := {|
  operands := fun op =>
    match op with
    | 42 => [3]
    | _ => operands small_graph op
    end;
  results := fun op =>
    match op with
    | 42 => [5]
    | _ => results small_graph op
    end;
  uses := fun v =>
    match v with
    | 3 => [41; 42]
    | _ => uses small_graph v
    end;
  GetUsageIdx := fun v op =>
    match v, op with
    | 3, 42 => 1
    | _, _ => 0
    end;
  GetRank := GetRank small_graph
|}.

Definition root_node : PatternNode :=
  mkPatternNode (Trivial (mkTrivialPattern [42])) 42.

End Scenario.

(** ** Properties *)

Section Properties.

Context {DimExpr : Type} `{Countable DimExpr}.
Variable SA : ShapeAnalysis DimExpr.
Variable G : Graph.
Variable P : Policy.

Lemma is_related_to_existsb related_with target_dim :
  is_related_to P related_with target_dim
  = existsb (fun related_dim => IsRelated P related_dim target_dim) related_with.
Proof.
  unfold is_related_to.
  assert (Hgen : forall acc,
    fold_left (fun is_related related_dim =>
                 if IsRelated P related_dim target_dim then true else is_related)
              related_with acc
    = acc || existsb (fun related_dim => IsRelated P related_dim target_dim) related_with).
  { induction related_with as [|r rw IH]; intros acc; simpl.
    - by rewrite orb_false_r.
    - rewrite IH. destruct (IsRelated P r target_dim), acc; simpl; auto. }
  apply Hgen.
Qed.

Lemma SplitFirstIfRelatedBySecond_filter targets related_with :
  SplitFirstIfRelatedBySecond P targets related_with
  = (filter (fun t => is_related_to P related_with t = true) targets,
     filter (fun t => is_related_to P related_with t <> true) targets).
Proof.
  unfold SplitFirstIfRelatedBySecond.
  induction targets as [|t ts IH] using rev_ind; [done|].
  rewrite fold_left_app, IH, !filter_app. simpl.
  rewrite !filter_cons, !filter_nil.
  destruct (is_related_to P related_with t) eqn:E; simpl;
    by rewrite app_nil_r.
Qed.

Lemma SplitReduceDims_fold v u (names_set : gset string) names k rd nrd :
  fold_left (SplitReduceDims_step v u names_set) names (k, rd, nrd)
  = (k + length names,
     rd ++ (snd <$> filter (fun p => p.1 ∉ names_set)
                      (imap (fun i name => (name, mkDimUsage v (k + i) u)) names)),
     nrd ++ (snd <$> filter (fun p => p.1 ∈ names_set)
                      (imap (fun i name => (name, mkDimUsage v (k + i) u)) names))).
Proof.
  revert k rd nrd. induction names as [|name names IH]; intros k rd nrd; simpl.
  - rewrite !app_nil_r. do 2 f_equal. lia.
  - rewrite !filter_cons. simpl. rewrite Nat.add_0_r.
    assert (Hext : imap ((fun i n => (n, mkDimUsage v (k + i) u)) ∘ S) names
                   = imap (fun i n => (n, mkDimUsage v (k + 1 + i) u)) names).
    { apply imap_ext. intros i x _. simpl. do 2 f_equal. lia. }
    rewrite Hext.
    destruct (decide (name ∈ names_set)) as [Hin|Hnin];
      rewrite IH; simpl; repeat case_decide; try done; simpl;
      rewrite <- ?app_assoc; simpl; f_equal; try done; f_equal; lia.
Qed.

Lemma SplitReduceDims_Ok sig op v inp out :
  operands G op !! 0 = Some v ->
  inputs sig !! 0 = Some inp ->
  outputs sig !! 0 = Some out ->
  SplitReduceDims G sig op
  = Ok (snd <$> filter (fun p => p.1 ∉ axis_names out)
                  (named_dims v (GetUsageIdx G v op) (axis_names inp)),
        snd <$> filter (fun p => p.1 ∈ axis_names out)
                  (named_dims v (GetUsageIdx G v op) (axis_names inp))).
Proof.
  intros Hv Hin Hout. unfold SplitReduceDims, operand_source.
  rewrite Hv, Hin, Hout. simpl.
  rewrite SplitReduceDims_fold. simpl. unfold named_dims.
  do 3 f_equal; apply list_filter_iff; intros [n d]; simpl;
    by rewrite elem_of_list_to_set.
Qed.

Lemma SplitReduceDims_Fatal sig op e :
  SplitReduceDims G sig op = Fatal e -> e = OutOfRange.
Proof.
  intros Hs.
  destruct (operands G op !! 0) as [v|] eqn:Hv;
    [|unfold SplitReduceDims, operand_source in Hs; rewrite Hv in Hs;
      simpl in Hs; congruence].
  destruct (inputs sig !! 0) as [inp|] eqn:Hin;
    [|unfold SplitReduceDims, operand_source in Hs; rewrite Hv, Hin in Hs;
      simpl in Hs; congruence].
  destruct (outputs sig !! 0) as [out|] eqn:Hout;
    [|unfold SplitReduceDims, operand_source in Hs; rewrite Hv, Hin, Hout in Hs;
      simpl in Hs; congruence].
  by rewrite (SplitReduceDims_Ok _ _ _ _ _ Hv Hin Hout) in Hs.
Qed.

Lemma elem_of_named_dims v u names name d :
  (name, d) ∈ named_dims v u names
  <-> exists i, names !! i = Some name /\ d = mkDimUsage v i u.
Proof.
  unfold named_dims. rewrite list_elem_of_lookup. split.
  - intros [i Hi]. rewrite list_lookup_imap in Hi.
    destruct (names !! i) as [n|] eqn:Hn; simpl in Hi; [|done].
    injection Hi as <- <-. by exists i.
  - intros [i [Hn ->]]. exists i. by rewrite list_lookup_imap, Hn.
Qed.

Lemma input_dims_seq v u names :
  input_dims v u names = (fun i => mkDimUsage v i u) <$> seq 0 (length names).
Proof.
  unfold input_dims, named_dims. rewrite fmap_imap.
  rewrite <- (imap_seq_0 names (fun i => mkDimUsage v i u)).
  by apply imap_ext.
Qed.

Lemma NoDup_input_dims v u names : NoDup (input_dims v u names).
Proof.
  rewrite input_dims_seq. apply NoDup_fmap_2; [|apply NoDup_seq].
  intros i j Hij. by injection Hij.
Qed.

Lemma filter_is_partition {A : Type} (Q : A -> Prop) `{forall x, Decision (Q x)}
    (l : list A) :
  is_partition_of l (filter Q l) (filter (fun x => ~ Q x) l).
Proof.
  repeat split.
  - apply filter_app_complement.
  - apply sublist_filter.
  - apply sublist_filter.
  - intros x [HQ _]%list_elem_of_filter [HnQ _]%list_elem_of_filter. done.
Qed.

Lemma is_partition_of_exactly_one {A : Type} (l l1 l2 : list A) x :
  is_partition_of l l1 l2 -> x ∈ l ->
  (x ∈ l1 /\ x ∉ l2) \/ ((x ∉ l1) /\ x ∈ l2).
Proof.
  intros (Hperm & _ & _ & Hdisj) Hx.
  rewrite <- Hperm in Hx. apply elem_of_app in Hx as [H1|H2].
  - left. split; [done|by apply Hdisj].
  - right. split; [|done]. intros H1. by apply (Hdisj x H1).
Qed.

Lemma named_filter_is_partition v u names (outs : list string) :
  is_partition_of (input_dims v u names)
    (snd <$> filter (fun p => p.1 ∉ outs) (named_dims v u names))
    (snd <$> filter (fun p => p.1 ∈ outs) (named_dims v u names)).
Proof.
  assert (Hperm :
    (snd <$> filter (fun p => p.1 ∉ outs) (named_dims v u names))
    ++ (snd <$> filter (fun p => p.1 ∈ outs) (named_dims v u names))
    ≡ₚ input_dims v u names).
  { unfold input_dims. rewrite <- fmap_app. apply fmap_Permutation.
    rewrite Permutation_app_comm.
    apply (filter_app_complement (fun p : string * DimUsage => p.1 ∈ outs)). }
  repeat split.
  - done.
  - unfold input_dims. apply fmap_sublist, sublist_filter.
  - unfold input_dims. apply fmap_sublist, sublist_filter.
  - pose proof (NoDup_input_dims v u names) as Hnd.
    rewrite <- Hperm in Hnd. apply NoDup_app in Hnd. apply Hnd.
Qed.

(** C5: when operand 0 of the operation and entry 0 of the signature's inputs
    and outputs exist, [SplitReduceDims] returns, and the input axis at each
    position is a reduced dimension exactly when its name is absent from the
    output axis names and a preserved dimension otherwise; nothing else is in
    either list.  For input axes ["i"; "j"] and output axes ["i"] the reduced
    dimensions are exactly the axis at index 1 and the preserved ones exactly
    the axis at index 0. *)
Theorem SplitReduceDims_classifies sig op v inp out :
  operands G op !! 0 = Some v ->
  inputs sig !! 0 = Some inp ->
  outputs sig !! 0 = Some out ->
  exists reduce_dims non_reduce_dims,
    SplitReduceDims G sig op = Ok (reduce_dims, non_reduce_dims)
    /\ (forall i name, axis_names inp !! i = Some name ->
          (mkDimUsage v i (GetUsageIdx G v op) ∈ reduce_dims
             <-> name ∉ axis_names out)
          /\ (mkDimUsage v i (GetUsageIdx G v op) ∈ non_reduce_dims
               <-> name ∈ axis_names out))
    /\ (forall d, d ∈ reduce_dims \/ d ∈ non_reduce_dims ->
          exists i, i < length (axis_names inp)
                    /\ d = mkDimUsage v i (GetUsageIdx G v op))
    /\ (axis_names inp = ["i"; "j"]%string -> axis_names out = ["i"]%string ->
          reduce_dims = [mkDimUsage v 1 (GetUsageIdx G v op)]
          /\ non_reduce_dims = [mkDimUsage v 0 (GetUsageIdx G v op)]).
Proof.
  intros Hv Hin Hout. eexists _, _. split; [by apply SplitReduceDims_Ok|].
  set (u := GetUsageIdx G v op).
  assert (Hmem : forall (Q : string * DimUsage -> Prop) `{forall p, Decision (Q p)}
                        i name,
            axis_names inp !! i = Some name ->
            (forall p q, p.2 = q.2 -> p ∈ named_dims v u (axis_names inp) ->
                         q ∈ named_dims v u (axis_names inp) -> p = q) ->
            mkDimUsage v i u ∈ snd <$> filter Q (named_dims v u (axis_names inp))
            <-> Q (name, mkDimUsage v i u)).
  { intros Q HQ i name Hi Hinj. rewrite list_elem_of_fmap. split.
    - intros [[n d] [Hd [HQp Hp]%list_elem_of_filter]]. simpl in Hd. subst d.
      assert (Hq : (name, mkDimUsage v i u) ∈ named_dims v u (axis_names inp))
        by (apply elem_of_named_dims; eauto).
      by rewrite (Hinj (name, mkDimUsage v i u) (n, mkDimUsage v i u) eq_refl Hq Hp).
    - intros HQp. exists (name, mkDimUsage v i u). split; [done|].
      apply list_elem_of_filter. split; [done|].
      apply elem_of_named_dims; eauto. }
  assert (Hinj : forall p q : string * DimUsage, p.2 = q.2 ->
            p ∈ named_dims v u (axis_names inp) ->
            q ∈ named_dims v u (axis_names inp) -> p = q).
  { intros [n1 d1] [n2 d2] Heq [i1 [Hn1 ->]]%elem_of_named_dims
           [i2 [Hn2 Hd2]]%elem_of_named_dims.
    simpl in Heq. subst d2. injection Hd2 as ->. congruence. }
  split; [|split].
  - intros i name Hi. split.
    + by rewrite (Hmem (fun p => p.1 ∉ axis_names out) _ i name Hi Hinj).
    + by rewrite (Hmem (fun p => p.1 ∈ axis_names out) _ i name Hi Hinj).
  - intros d Hd.
    assert (Hd' : exists n, (n, d) ∈ named_dims v u (axis_names inp)).
    { destruct Hd as [Hd|Hd]; apply list_elem_of_fmap in Hd;
        destruct Hd as [[n d'] [-> [_ Hp]%list_elem_of_filter]]; by exists n. }
    destruct Hd' as [n [i [Hn ->]]%elem_of_named_dims].
    exists i. split; [by eapply lookup_lt_Some|done].
  - intros -> ->. split; reflexivity.
Qed.

(** C6: both splitters return two lists that partition their input: the
    concatenation of the two lists is a permutation of the input, each list
    keeps the order of the input, no element is in both, and every element of
    the input is in exactly one of them.  For [SplitReduceDims] the input is
    the list of the dimensions of the operand, one per input axis name; for
    [SplitFirstIfRelatedBySecond] it is [targets]. *)
Theorem splitters_partition sig op v inp out targets related_with :
  operands G op !! 0 = Some v ->
  inputs sig !! 0 = Some inp ->
  outputs sig !! 0 = Some out ->
  (exists reduce_dims non_reduce_dims,
     SplitReduceDims G sig op = Ok (reduce_dims, non_reduce_dims)
     /\ is_partition_of (input_dims v (GetUsageIdx G v op) (axis_names inp))
                        reduce_dims non_reduce_dims
     /\ (forall d, d ∈ input_dims v (GetUsageIdx G v op) (axis_names inp) ->
           (d ∈ reduce_dims /\ d ∉ non_reduce_dims)
           \/ ((d ∉ reduce_dims) /\ d ∈ non_reduce_dims)))
  /\ is_partition_of targets
       (SplitFirstIfRelatedBySecond P targets related_with).1
       (SplitFirstIfRelatedBySecond P targets related_with).2
  /\ (forall d, d ∈ targets ->
        (d ∈ (SplitFirstIfRelatedBySecond P targets related_with).1
         /\ d ∉ (SplitFirstIfRelatedBySecond P targets related_with).2)
        \/ ((d ∉ (SplitFirstIfRelatedBySecond P targets related_with).1)
            /\ d ∈ (SplitFirstIfRelatedBySecond P targets related_with).2)).
Proof.
  intros Hv Hin Hout. split.
  - eexists _, _. split; [by apply SplitReduceDims_Ok|].
    split; [apply named_filter_is_partition|].
    intros d. apply is_partition_of_exactly_one, named_filter_is_partition.
  - assert (Hpart : is_partition_of targets
              (SplitFirstIfRelatedBySecond P targets related_with).1
              (SplitFirstIfRelatedBySecond P targets related_with).2).
    { rewrite SplitFirstIfRelatedBySecond_filter. simpl.
      apply (filter_is_partition (fun t => is_related_to P related_with t = true)). }
    split; [done|]. intros d. by apply is_partition_of_exactly_one.
Qed.

(** *** The multiset predicate *)

Lemma GetDimInfo_lookup dims k :
  GetDimInfo SA dims !! k
  = match occurrences SA k dims with
    | 0 => None
    | S n => Some (Z.of_nat (S n))
    end.
Proof.
  unfold GetDimInfo, occurrences, symbolic_sizes.
  induction dims as [|d dims IH] using rev_ind; [done|].
  rewrite fold_left_app, fmap_app, count_occ_app. simpl.
  set (m := fold_left _ dims ∅) in *.
  destruct (decide_rel eq (GetSymbolicDim SA d) k) as [->|Hne].
  - rewrite IH.
    destruct (count_occ _ _ _) as [|n]; simpl.
    + by rewrite lookup_insert_eq.
    + rewrite lookup_insert_eq. f_equal. lia.
  - rewrite Nat.add_0_r.
    destruct (m !! GetSymbolicDim SA d); by rewrite lookup_insert_ne.
Qed.

Lemma GetDimInfo_eq_iff first second :
  GetDimInfo SA first = GetDimInfo SA second
  <-> symbolic_sizes SA first ≡ₚ symbolic_sizes SA second.
Proof.
  rewrite (Permutation_count_occ (decide_rel (=))). split.
  - intros Heq k.
    pose proof (GetDimInfo_lookup first k) as H1.
    pose proof (GetDimInfo_lookup second k) as H2.
    rewrite Heq in H1. rewrite H2 in H1. unfold occurrences in H1.
    destruct (count_occ _ (symbolic_sizes SA first) k),
             (count_occ _ (symbolic_sizes SA second) k); try done.
    injection H1. lia.
  - intros Hcount. apply map_eq. intros k.
    rewrite !GetDimInfo_lookup. unfold occurrences. by rewrite Hcount.
Qed.

Lemma ElementwiseEqual_true_iff first second :
  ElementwiseEqual SA first second = true
  <-> GetDimInfo SA first = GetDimInfo SA second.
Proof.
  unfold ElementwiseEqual.
  set (m1 := GetDimInfo SA first). set (m2 := GetDimInfo SA second).
  split.
  - case_decide as Hsize; [done|]. intros Hall.
    assert (Hsub : m1 ⊆ m2).
    { apply map_subseteq_spec. intros k c Hk.
      rewrite forallb_forall in Hall.
      specialize (Hall (k, c)). simpl in Hall.
      rewrite <- list_elem_of_In, elem_of_map_to_list in Hall.
      specialize (Hall Hk).
      destruct (m2 !! k) as [c'|]; [|done].
      apply bool_decide_eq_true in Hall. by subst. }
    destruct (decide (m1 = m2)) as [|Hne]; [done|].
    assert (Hlt : size m1 < size m2).
    { apply map_subset_size. split; [done|].
      intros Hsub'. apply Hne. by apply (anti_symm (⊆)). }
    lia.
  - intros ->. rewrite decide_False by (intros Hs; by apply Hs).
    apply forallb_forall. intros [k c] Hin.
    rewrite <- list_elem_of_In, elem_of_map_to_list in Hin.
    rewrite Hin. by apply bool_decide_eq_true.
Qed.

Lemma ElementwiseEqual_Permutation first second :
  ElementwiseEqual SA first second = true
  <-> symbolic_sizes SA first ≡ₚ symbolic_sizes SA second.
Proof. by rewrite ElementwiseEqual_true_iff, GetDimInfo_eq_iff. Qed.

(** C7: [ElementwiseEqual] is symmetric, and reflexive on every list, the
    empty one included. *)
Theorem ElementwiseEqual_sym_refl (A B : list DimUsage) :
  ElementwiseEqual SA A B = ElementwiseEqual SA B A
  /\ ElementwiseEqual SA A A = true
  /\ ElementwiseEqual SA [] [] = true.
Proof.
  split; [|split].
  - destruct (ElementwiseEqual SA A B) eqn:HAB, (ElementwiseEqual SA B A) eqn:HBA;
      try done.
    + apply ElementwiseEqual_true_iff in HAB.
      symmetry in HAB. apply ElementwiseEqual_true_iff in HAB. congruence.
    + apply ElementwiseEqual_true_iff in HBA.
      symmetry in HBA. apply ElementwiseEqual_true_iff in HBA. congruence.
  - by apply ElementwiseEqual_true_iff.
  - by apply ElementwiseEqual_true_iff.
Qed.

(** *** The product predicate *)




(** *** The single consumer *)

Lemma FindUserOp_results (candidates users acc : list Operation) :
  fold_left
    (fun results user_op =>
       if decide (user_op ∈ candidates) then results ++ [user_op] else results)
    users acc
  = acc ++ filter (fun op => op ∈ candidates) users.
Proof.
  revert acc. induction users as [|op users IH]; intros acc; simpl.
  - by rewrite app_nil_r.
  - rewrite IH, filter_cons. case_decide; [|done].
    by rewrite <- app_assoc.
Qed.

Lemma FindUserOp_unfold (candidates : list Operation) (value : Value) :
  FindUserOp G candidates value
  = match filter (fun op => op ∈ candidates) (uses G value) with
    | [op] => Ok op
    | _ => Fatal InvalidArgument
    end.
Proof.
  unfold FindUserOp. rewrite FindUserOp_results. simpl.
  destruct (filter _ _) as [|op [|op' l]]; simpl; try done.
Qed.

(** C8: [FindUserOp] ends in a fatal error whenever the uses of the value
    owned by candidate operations are none or more than one; it returns an
    operation exactly when there is one such use, whose owner it returns; two
    different consumers among the candidates, and no consumer among them,
    always give the fatal error. *)
Theorem FindUserOp_exactly_one (candidates : list Operation) (value : Value) :
  (length (filter (fun op => op ∈ candidates) (uses G value)) = 0
   \/ 1 < length (filter (fun op => op ∈ candidates) (uses G value)) ->
   FindUserOp G candidates value = Fatal InvalidArgument)
  /\ (forall op, FindUserOp G candidates value = Ok op
                 <-> filter (fun op => op ∈ candidates) (uses G value) = [op])
  /\ (forall op, FindUserOp G candidates value = Ok op ->
                 op ∈ candidates /\ op ∈ uses G value)
  /\ (forall op1 op2, op1 <> op2 ->
        op1 ∈ candidates -> op1 ∈ uses G value ->
        op2 ∈ candidates -> op2 ∈ uses G value ->
        FindUserOp G candidates value = Fatal InvalidArgument)
  /\ ((forall op, op ∈ uses G value -> op ∉ candidates) ->
      FindUserOp G candidates value = Fatal InvalidArgument).
Proof.
  rewrite FindUserOp_unfold.
  assert (Hmem : forall op, op ∈ filter (fun op => op ∈ candidates) (uses G value)
                            <-> op ∈ candidates /\ op ∈ uses G value)
    by (intros op; by rewrite list_elem_of_filter).
  destruct (filter _ _) as [|op [|op' l]] eqn:Hf; simpl.
  - split; [done|]. split; [|split; [|split]]; [by split| by intros | done | done].
  - split; [lia|]. split; [|split; [|split]].
    + intros op0. split; [by intros [= ->]|by intros [= ->]].
    + intros op0 [= <-]. apply Hmem. by apply list_elem_of_here.
    + intros op1 op2 Hne H1 H1' H2 H2'.
      assert (Hin1 : op1 ∈ [op]) by (by apply Hmem).
      assert (Hin2 : op2 ∈ [op]) by (by apply Hmem).
      apply list_elem_of_singleton in Hin1, Hin2. congruence.
    + intros Hnone. exfalso.
      assert (Hin : op ∈ [op]) by (apply list_elem_of_singleton; done).
      apply Hmem in Hin as [Hc Hu]. by apply (Hnone op).
  - split; [done|]. split; [|split; [|split]]; [by split| by intros | done | done].
Qed.

(** *** The guard of the fake-reduce computation *)

(** C9: [GetFakeReduceIterIdx] ends in the illegal-call error exactly when the
    upstream pattern is not a reduce tree and the downstream pattern is not a
    trivial pattern; when the upstream is a reduce tree or the downstream is a
    trivial pattern that error is not raised. *)
Theorem GetFakeReduceIterIdx_illegal_call (upstream downstream : PatternNode) :
  (GetFakeReduceIterIdx SA G P upstream downstream = Fatal IllegalCall
   <-> holds_ReduceTreePattern (stmt_pattern upstream) = false
       /\ holds_TrivialPattern (stmt_pattern downstream) = false)
  /\ (holds_ReduceTreePattern (stmt_pattern upstream) = true
      \/ holds_TrivialPattern (stmt_pattern downstream) = true ->
      GetFakeReduceIterIdx SA G P upstream downstream <> Fatal IllegalCall).
Proof.
  assert (Hiff :
    GetFakeReduceIterIdx SA G P upstream downstream = Fatal IllegalCall
    <-> holds_ReduceTreePattern (stmt_pattern upstream) = false
        /\ holds_TrivialPattern (stmt_pattern downstream) = false).
  { unfold GetFakeReduceIterIdx.
    destruct (holds_ReduceTreePattern (stmt_pattern upstream)) eqn:Hu,
             (holds_TrivialPattern (stmt_pattern downstream)) eqn:Hd; simpl;
      try done.
    all: split; [|by intros [? ?]]; intros Hf; exfalso.
    all: destruct (SplitReduceDims G _ _) as [[rd nrd]|e] eqn:Hs; simpl in Hf;
      [|apply SplitReduceDims_Fatal in Hs; congruence].
    all: unfold result in Hf;
      destruct (results G (sink_op downstream) !! 0) as [out|]; simpl in Hf;
      [|done].
    all: destruct (SplitFirstIfRelatedBySecond _ _ _) as [? tr];
      by destruct (fold_left _ _ _). }
  split; [done|].
  intros Hor Hf. apply Hiff in Hf. destruct Hf as [Hu Hd].
  destruct Hor; congruence.
Qed.

(** *** The fake-reduce matching *)

Lemma find_fake_Some visited reduce_dim (dims : list DimUsage) t :
  find_fake SA visited reduce_dim dims = Some t ->
  t ∈ dims /\ (t ∉ visited) /\ SymbolicEqualTo SA t reduce_dim = true.
Proof.
  induction dims as [|d dims IH]; simpl; [done|].
  destruct (bool_decide (d ∉ visited) && SymbolicEqualTo SA d reduce_dim) eqn:E.
  - intros [= <-]. apply andb_true_iff in E as [Hv He].
    apply bool_decide_eq_true in Hv. split; [by apply elem_of_cons; left|done].
  - intros Hf. destruct (IH Hf) as (? & ? & ?).
    split; [by apply elem_of_cons; right|done].
Qed.

Lemma find_fake_None visited reduce_dim (dims : list DimUsage) :
  find_fake SA visited reduce_dim dims = None
  <-> forall t, t ∈ dims -> t ∈ visited \/ SymbolicEqualTo SA t reduce_dim = false.
Proof.
  induction dims as [|d dims IH]; simpl.
  - split; [|done]. intros _ t Ht. by apply elem_of_nil in Ht.
  - destruct (bool_decide (d ∉ visited) && SymbolicEqualTo SA d reduce_dim) eqn:E.
    + split; [done|]. intros Hall. exfalso.
      apply andb_true_iff in E as [Hv He]. apply bool_decide_eq_true in Hv.
      destruct (Hall d) as [?|?]; [by apply elem_of_cons; left|done|congruence].
    + rewrite IH. split.
      * intros Hall t [->|Ht]%elem_of_cons; [|by apply Hall].
        apply andb_false_iff in E as [Hv|He]; [|by right].
        apply bool_decide_eq_false in Hv. left.
        destruct (decide (d ∈ visited)); [done|]. by exfalso.
      * intros Hall t Ht. apply Hall. apply elem_of_cons. by right.
Qed.

Lemma fake_loop_invariant (reorder rds : list DimUsage) :
  let st := fold_left (fake_match_step SA reorder) rds (∅, []) in
  fold_left (fake_step SA reorder) rds (∅, [])
  = (st.1, (fun m => idx_ m.2) <$> st.2)
  /\ st.1 = list_to_set (snd <$> st.2)
  /\ NoDup (snd <$> st.2)
  /\ (fst <$> st.2) `sublist_of` rds
  /\ (forall r t, (r, t) ∈ st.2 ->
        t ∈ reorder /\ SymbolicEqualTo SA t r = true).
Proof.
  induction rds as [|r rds IH] using rev_ind; simpl.
  - split; [done|]. split; [done|]. split; [constructor|].
    split; [constructor|].
    intros r0 t0 Hin. by apply elem_of_nil in Hin.
  - rewrite !fold_left_app. simpl in *.
    destruct (fold_left (fake_match_step SA reorder) rds (∅, []))
      as [visited matched] eqn:Hst.
    destruct IH as (Hsrc & Hvis & Hnd & Hsub & Hall). simpl in *.
    rewrite Hsrc. simpl.
    destruct (find_fake SA visited r reorder) as [t|] eqn:Hfind; simpl.
    + apply find_fake_Some in Hfind as (Hin & Hnv & Heq).
      rewrite !fmap_app. simpl.
      split; [done|]. split; [|split; [|split]].
      * rewrite list_to_set_snoc_L, <- Hvis. apply (comm_L (∪)).
      * apply NoDup_app. split; [done|]. split; [|apply NoDup_singleton].
        intros x Hx ->%list_elem_of_singleton. apply Hnv.
        rewrite Hvis. by apply elem_of_list_to_set.
      * by apply sublist_app.
      * intros r0 t0 [Hm|Hm%list_elem_of_singleton]%elem_of_app.
        -- by apply Hall.
        -- by injection Hm as -> ->.
    + split; [done|]. split; [done|]. split; [done|].
      split; [by apply sublist_inserts_r|done].
Qed.

Lemma elem_of_GetValueUsage v u d :
  d ∈ GetValueUsage G v u <-> exists i, i < GetRank G v /\ d = mkDimUsage v i u.
Proof.
  unfold GetValueUsage. rewrite list_elem_of_fmap. split.
  - intros [i [-> Hi]]. exists i. split; [|done].
    apply elem_of_seq in Hi. lia.
  - intros [i [Hi ->]]. exists i. split; [done|]. apply elem_of_seq. lia.
Qed.

Lemma non_related_subset (targets related_with : list DimUsage) d :
  d ∈ (SplitFirstIfRelatedBySecond P targets related_with).2 -> d ∈ targets.
Proof.
  rewrite SplitFirstIfRelatedBySecond_filter. simpl.
  by intros [_ ?]%list_elem_of_filter.
Qed.

Lemma GetFakeReduceIterIdx_Ok upstream downstream rd nrd out :
  holds_ReduceTreePattern (stmt_pattern upstream) = true
  \/ holds_TrivialPattern (stmt_pattern downstream) = true ->
  SplitReduceDims G (GetSignature P (sink_op upstream)) (sink_op upstream)
  = Ok (rd, nrd) ->
  results G (sink_op downstream) !! 0 = Some out ->
  GetFakeReduceIterIdx SA G P upstream downstream
  = Ok ((fun m => idx_ m.2)
          <$> fake_matching SA
                (SplitFirstIfRelatedBySecond P (GetValueUsage G out 0) nrd).2 rd).
Proof.
  intros Hpre Hsplit Hout.
  unfold GetFakeReduceIterIdx.
  assert (Hguard : negb (holds_ReduceTreePattern (stmt_pattern upstream))
                   && negb (holds_TrivialPattern (stmt_pattern downstream))
                   = false).
  { destruct Hpre as [-> | ->]; [done|]. apply andb_false_r. }
  rewrite Hguard, Hsplit. unfold result. rewrite Hout. simpl.
  destruct (SplitFirstIfRelatedBySecond P (GetValueUsage G out 0) nrd)
    as [rel reorder] eqn:Hsf.
  simpl.
  destruct (fake_loop_invariant reorder rd) as (Hsrc & _). simpl in Hsrc.
  by rewrite Hsrc.
Qed.

(** C10: under its precondition, on a well-formed upstream signature and a
    downstream sink with a result, [GetFakeReduceIterIdx] returns the indices
    of the matched pairs of its loop.  No reordered dimension is matched
    twice; the matched upstream reduced dimensions are taken in order, each at
    most once; every match relates symbolically equal dimensions; an upstream
    reduced dimension all of whose symbolically equal reordered dimensions are
    already visited leaves the state of the loop unchanged; the returned
    indices are pairwise distinct and at most as many as the upstream reduced
    dimensions. *)
Theorem GetFakeReduceIterIdx_matching upstream downstream rd nrd out :
  holds_ReduceTreePattern (stmt_pattern upstream) = true
  \/ holds_TrivialPattern (stmt_pattern downstream) = true ->
  SplitReduceDims G (GetSignature P (sink_op upstream)) (sink_op upstream)
  = Ok (rd, nrd) ->
  results G (sink_op downstream) !! 0 = Some out ->
  let reorder := (SplitFirstIfRelatedBySecond P (GetValueUsage G out 0) nrd).2 in
  let matched := fake_matching SA reorder rd in
  exists fakes,
    GetFakeReduceIterIdx SA G P upstream downstream = Ok fakes
    /\ fakes = (fun m => idx_ m.2) <$> matched
    /\ NoDup (snd <$> matched)
    /\ (fst <$> matched) `sublist_of` rd
    /\ (forall r t, (r, t) ∈ matched ->
          t ∈ reorder /\ SymbolicEqualTo SA t r = true)
    /\ (forall visited result r,
          (forall t, t ∈ reorder ->
                     t ∈ visited \/ SymbolicEqualTo SA t r = false) ->
          fake_step SA reorder (visited, result) r = (visited, result))
    /\ NoDup fakes
    /\ length fakes <= length rd.
Proof.
  intros Hpre Hsplit Hout reorder matched.
  pose proof (fake_loop_invariant reorder rd) as Hinv. simpl in Hinv.
  fold matched in Hinv.
  destruct Hinv as (Hsrc & _ & Hnd & Hsub & Hall).
  exists ((fun m => idx_ m.2) <$> matched).
  split; [|split; [done|split; [done|split; [done|split; [done|split; [|split]]]]]].
  - by apply GetFakeReduceIterIdx_Ok.
  - intros visited result0 r Hnone. unfold fake_step.
    by apply find_fake_None in Hnone as ->.
  - change ((fun m : DimUsage * DimUsage => idx_ m.2) <$> matched)
      with ((idx_ ∘ snd) <$> matched).
    rewrite (list_fmap_compose snd idx_). apply NoDup_fmap_2_strong; [|done].
    intros x y [[rx tx] [-> Hx]]%list_elem_of_fmap
           [[ry ty] [-> Hy]]%list_elem_of_fmap Hidx.
    simpl in *.
    apply Hall in Hx as [Hx _]. apply Hall in Hy as [Hy _].
    apply non_related_subset, elem_of_GetValueUsage in Hx as [i [_ ->]].
    apply non_related_subset, elem_of_GetValueUsage in Hy as [j [_ ->]].
    simpl in Hidx. by subst.
  - rewrite length_fmap, <- (length_fmap fst). by apply sublist_length.
Qed.

(** *** The merge rules *)

Lemma existsb_false_iff {A : Type} (f : A -> bool) (l : list A) :
  existsb f l = false <-> forall x, x ∈ l -> f x = false.
Proof.
  induction l as [|a l IH]; simpl.
  - split; [|done]. intros _ x Hx. by apply elem_of_nil in Hx.
  - rewrite orb_false_iff, IH. split.
    + intros [Ha Hl] x [->|Hx]%elem_of_cons; auto.
    + intros Hall. split; [apply Hall; apply elem_of_cons; by left|].
      intros x Hx. apply Hall. apply elem_of_cons. by right.
Qed.

Lemma non_related_spec (targets related_with : list DimUsage) d :
  d ∈ (SplitFirstIfRelatedBySecond P targets related_with).2
  <-> d ∈ targets /\ forall p, p ∈ related_with -> IsRelated P p d = false.
Proof.
  rewrite SplitFirstIfRelatedBySecond_filter. simpl.
  rewrite list_elem_of_filter, is_related_to_existsb.
  rewrite not_true_iff_false, existsb_false_iff. tauto.
Qed.

Lemma related_spec (targets related_with : list DimUsage) d :
  d ∈ (SplitFirstIfRelatedBySecond P targets related_with).1
  <-> d ∈ targets /\ exists p, p ∈ related_with /\ IsRelated P p d = true.
Proof.
  rewrite SplitFirstIfRelatedBySecond_filter. simpl.
  rewrite list_elem_of_filter, is_related_to_existsb, existsb_exists.
  setoid_rewrite <- list_elem_of_In. tauto.
Qed.

Lemma GatherVectorExcept_shift {A : Type} (Q : A -> Prop)
    `{forall x, Decision (Q x)} (l : list A) (idx : list nat) k :
  (forall i x, l !! i = Some x -> (k + i ∉ idx <-> Q x)) ->
  snd <$> filter (fun p => p.1 ∉ idx) (imap (fun i x => (k + i, x)) l)
  = filter Q l.
Proof.
  revert k. induction l as [|a l IH]; intros k Hpos; [done|].
  rewrite imap_cons, !filter_cons. simpl.
  assert (Hext : imap ((fun i x => (k + i, x)) ∘ S) l
                 = imap (fun i x => (S k + i, x)) l).
  { apply imap_ext. intros i x _. simpl. f_equal. lia. }
  rewrite Hext.
  assert (Htail : snd <$> filter (fun p => p.1 ∉ idx)
                            (imap (fun i x => (S k + i, x)) l)
                  = filter Q l).
  { apply IH. intros i x Hi. rewrite <- (Hpos (S i) x Hi).
    by replace (S k + i) with (k + S i) by lia. }
  specialize (Hpos 0 a eq_refl).
  destruct (decide (Q a)) as [HQ|HQ].
  - rewrite decide_True by (by apply Hpos). by rewrite fmap_cons, Htail.
  - rewrite decide_False by (by rewrite Hpos). done.
Qed.

Lemma GatherVectorExcept_as_filter {A : Type} (Q : A -> Prop)
    `{forall x, Decision (Q x)} (l : list A) (idx : list nat) :
  (forall i x, l !! i = Some x -> (i ∉ idx <-> Q x)) ->
  GatherVectorExcept l idx = filter Q l.
Proof.
  intros Hpos. unfold GatherVectorExcept.
  by apply (GatherVectorExcept_shift Q l idx 0).
Qed.


Lemma lookup_GetValueUsage v u i d :
  GetValueUsage G v u !! i = Some d -> d = mkDimUsage v i u.
Proof.
  unfold GetValueUsage. rewrite list_lookup_fmap.
  destruct (seq 0 (GetRank G v) !! i) as [j|] eqn:Hj; simpl; [|done].
  apply lookup_seq in Hj as [-> _]. by intros [= <-].
Qed.

Lemma find_fake_first visited reduce_dim (dims : list DimUsage) t :
  find_fake SA visited reduce_dim dims = Some t ->
  exists l1 l2,
    dims = l1 ++ t :: l2
    /\ forall t', t' ∈ l1 ->
          t' ∈ visited \/ SymbolicEqualTo SA t' reduce_dim = false.
Proof.
  induction dims as [|d dims IH]; simpl; [done|].
  destruct (bool_decide (d ∉ visited) && SymbolicEqualTo SA d reduce_dim) eqn:E.
  - intros [= <-]. exists [], dims. split; [done|].
    intros t' Ht'. by apply elem_of_nil in Ht'.
  - intros Hf. destruct (IH Hf) as (l1 & l2 & -> & Hl1).
    exists (d :: l1), l2. split; [done|].
    intros t' [->|Ht']%elem_of_cons; [|by apply Hl1].
    apply andb_false_iff in E as [Hv|He]; [|by right].
    apply bool_decide_eq_false in Hv. left.
    destruct (decide (d ∈ visited)); [done|]. by exfalso.
Qed.

Lemma snoc_eq_middle {A : Type} (l l1 l2 : list A) a b :
  l ++ [a] = l1 ++ b :: l2 ->
  (l2 = [] /\ l = l1 /\ a = b)
  \/ exists l2', l2 = l2' ++ [a] /\ l = l1 ++ b :: l2'.
Proof.
  destruct l2 as [|c l2 _] using rev_ind.
  - intros Heq. left. apply app_inj_tail in Heq as [-> ->]. done.
  - intros Heq. right. exists l2.
    rewrite app_comm_cons, app_assoc in Heq.
    apply app_inj_tail in Heq as [-> ->]. done.
Qed.

(** The choices of the loop of [GetFakeReduceIterIdx]: a reduced dimension is
    left unmatched only when every reordered dimension symbolically equal to
    it is matched, and a match takes the first reordered dimension that is
    symbolically equal and not matched before. *)
Lemma fake_loop_choice (reorder rds : list DimUsage) :
  let matched := (fold_left (fake_match_step SA reorder) rds (∅, [])).2 in
  (forall r, r ∈ rds ->
     r ∈ fst <$> matched
     \/ forall t, t ∈ reorder -> SymbolicEqualTo SA t r = true ->
                   t ∈ snd <$> matched)
  /\ (forall M1 r t M2, matched = M1 ++ (r, t) :: M2 ->
        exists l1 l2,
          reorder = l1 ++ t :: l2
          /\ forall t', t' ∈ l1 -> SymbolicEqualTo SA t' r = true ->
                         t' ∈ snd <$> M1).
Proof.
  induction rds as [|r rds IH] using rev_ind; simpl.
  - split.
    + intros r Hr. by apply elem_of_nil in Hr.
    + intros M1 r t M2 Heq. by destruct M1.
  - rewrite fold_left_app. simpl in *.
    destruct (fake_loop_invariant reorder rds) as (_ & Hvis & _).
    destruct (fold_left (fake_match_step SA reorder) rds (∅, []))
      as [visited matched] eqn:Hst.
    destruct IH as [Hmax Hfirst]. simpl in *.
    assert (Hin_vis : forall t, t ∈ visited <-> t ∈ snd <$> matched).
    { intros t. rewrite Hvis. apply elem_of_list_to_set. }
    destruct (find_fake SA visited r reorder) as [t|] eqn:Hfind; simpl.
    + split.
      * intros r0 [Hr0|Hr0%list_elem_of_singleton]%elem_of_app; [|subst r0].
        -- destruct (Hmax r0 Hr0) as [Hm|Hall].
           ++ left. rewrite fmap_app. apply elem_of_app. by left.
           ++ right. intros t0 Ht0 Heq. rewrite fmap_app.
              apply elem_of_app. left. by apply Hall.
        -- left. rewrite fmap_app. apply elem_of_app. right.
           by apply list_elem_of_singleton.
      * intros M1 r0 t0 M2 Heq.
        apply snoc_eq_middle in Heq
          as [(-> & <- & [= <- <-])|(M2' & -> & ->)].
        -- apply find_fake_first in Hfind as (l1 & l2 & -> & Hl1).
           exists l1, l2. split; [done|]. intros t' Ht' Heq.
           destruct (Hl1 t' Ht') as [Hv|Hne]; [by apply Hin_vis|congruence].
        -- by apply (Hfirst M1 r0 t0 M2').
    + split.
      * intros r0 [Hr0|Hr0%list_elem_of_singleton]%elem_of_app;
          [by apply Hmax|subst r0].
        right. intros t Ht Heq.
        destruct (proj1 (find_fake_None visited r reorder) Hfind t Ht)
          as [Hv|Hne]; [by apply Hin_vis|congruence].
      * done.
Qed.

(** C2: on a reduce tree followed by a trivial pattern, with a well-formed
    upstream signature and a downstream sink that has a result,
    [ReducePlusTrivialCanMerge] returns the disjunction of
    (a) [ElementwiseEqual] between the downstream output dimensions that are
    related to no preserved upstream dimension and the upstream reduced
    dimensions, which holds exactly when their symbolic sizes are equal as
    multisets, and (b) [IsProductSmallerOrEqual] between the downstream output
    dimensions outside the fake-reduce positions and the preserved upstream
    dimensions.  The fake-reduce positions are the axes of the non-related
    dimensions matched to upstream reduced dimensions: each match pairs
    symbolically equal dimensions, no dimension is matched twice, a reduced
    dimension stays unmatched only when every non-related dimension equal to
    it is matched, and a match takes the first such dimension not matched
    before; the dimensions at these positions, and no others, are removed.
    It is also what [CanFuse] returns there.  Either branch alone gives true
    when the other fails. *)
Theorem ReducePlusTrivialCanMerge_verdict upstream downstream tree triv rd nrd out :
  stmt_pattern upstream = ReduceTree tree ->
  stmt_pattern downstream = Trivial triv ->
  SplitReduceDims G (GetSignature P (sink_op upstream)) (sink_op upstream)
  = Ok (rd, nrd) ->
  results G (sink_op downstream) !! 0 = Some out ->
  let output_dims := GetValueUsage G out 0 in
  let non_related_dims := (SplitFirstIfRelatedBySecond P output_dims nrd).2 in
  exists fakes,
    GetFakeReduceIterIdx SA G P upstream downstream = Ok fakes
    /\ (forall d, d ∈ non_related_dims
                  <-> d ∈ output_dims
                      /\ forall p, p ∈ nrd -> IsRelated P p d = false)
    /\ ReducePlusTrivialCanMerge SA G P upstream downstream
       = Ok (ElementwiseEqual SA non_related_dims rd
             || IsProductSmallerOrEqual SA (GatherVectorExcept output_dims fakes) nrd)
    /\ CanFuse SA G P upstream downstream
       = ReducePlusTrivialCanMerge SA G P upstream downstream
    /\ (ReducePlusTrivialCanMerge SA G P upstream downstream = Ok true
        <-> symbolic_sizes SA non_related_dims ≡ₚ symbolic_sizes SA rd
            \/ IsProductSmallerOrEqual SA (GatherVectorExcept output_dims fakes) nrd
               = true)
    /\ (symbolic_sizes SA non_related_dims ≡ₚ symbolic_sizes SA rd ->
        IsProductSmallerOrEqual SA (GatherVectorExcept output_dims fakes) nrd = false ->
        ReducePlusTrivialCanMerge SA G P upstream downstream = Ok true)
    /\ (IsProductSmallerOrEqual SA (GatherVectorExcept output_dims fakes) nrd = true ->
        ElementwiseEqual SA non_related_dims rd = false ->
        ReducePlusTrivialCanMerge SA G P upstream downstream = Ok true)
    /\ GatherVectorExcept output_dims fakes
       = filter (fun d => idx_ d ∉ fakes) output_dims
    /\ exists matched,
         fakes = (fun m => idx_ m.2) <$> matched
         /\ NoDup (snd <$> matched)
         /\ (fst <$> matched) `sublist_of` rd
         /\ (forall r t, (r, t) ∈ matched ->
               t ∈ non_related_dims /\ SymbolicEqualTo SA t r = true)
         /\ (forall r, r ∈ rd ->
               r ∈ fst <$> matched
               \/ forall t, t ∈ non_related_dims ->
                     SymbolicEqualTo SA t r = true -> t ∈ snd <$> matched)
         /\ (forall M1 r t M2, matched = M1 ++ (r, t) :: M2 ->
               exists l1 l2,
                 non_related_dims = l1 ++ t :: l2
                 /\ forall t', t' ∈ l1 -> SymbolicEqualTo SA t' r = true ->
                                t' ∈ snd <$> M1).
Proof.
  intros Hup Hdown Hsplit Hout output_dims non_related_dims.
  assert (Hfakes := GetFakeReduceIterIdx_Ok upstream downstream rd nrd out).
  rewrite Hup in Hfakes. specialize (Hfakes (or_introl eq_refl) Hsplit Hout).
  fold output_dims in Hfakes. fold non_related_dims in Hfakes.
  eexists. split; [exact Hfakes|].
  set (matched := fake_matching SA non_related_dims rd) in *.
  set (fakes := (fun m => idx_ m.2) <$> matched) in *.
  split; [intros d; apply non_related_spec|].
  assert (Hrun :
    ReducePlusTrivialCanMerge SA G P upstream downstream
    = Ok (ElementwiseEqual SA non_related_dims rd
          || IsProductSmallerOrEqual SA (GatherVectorExcept output_dims fakes) nrd)).
  { unfold ReducePlusTrivialCanMerge. rewrite Hsplit. unfold result.
    rewrite Hout. simpl. fold output_dims.
    unfold non_related_dims in *.
    destruct (SplitFirstIfRelatedBySecond P output_dims nrd) as [rel nonrel].
    by rewrite Hfakes. }
  split; [done|]. split; [by unfold CanFuse; rewrite Hup, Hdown|].
  rewrite Hrun. split; [|split; [|split; [|split]]].
  - rewrite <- ElementwiseEqual_Permutation. split.
    + intros [= Hor]. by apply orb_true_iff in Hor.
    + intros Hor. f_equal. by apply orb_true_iff.
  - intros Hperm _. apply ElementwiseEqual_Permutation in Hperm.
    by rewrite Hperm.
  - intros -> _. by rewrite orb_true_r.
  - apply (GatherVectorExcept_as_filter (fun d => idx_ d ∉ fakes)).
    intros i d Hi. by rewrite (lookup_GetValueUsage _ _ _ _ Hi).
  - exists matched. split; [done|].
    destruct (fake_loop_invariant non_related_dims rd) as (_ & _ & Hnd & Hsub & Hall).
    destruct (fake_loop_choice non_related_dims rd) as [Hmax Hfirst].
    done.
Qed.

Lemma IsDownstreamStmtDependReduceOp_false_iff reduce downstream :
  IsDownstreamStmtDependReduceOp G P reduce downstream = false
  <-> forall value, value ∈ results G reduce ->
                    value ∉ GetPatternInputValues P downstream.
Proof.
  unfold IsDownstreamStmtDependReduceOp. rewrite existsb_false_iff.
  by setoid_rewrite bool_decide_eq_false.
Qed.

Lemma GetDownstreamFromCandidate_None upstream (candidates : list ReducePattern) :
  GetDownstreamFromCandidate G P upstream candidates = None
  <-> forall c, c ∈ candidates ->
        forall value, value ∈ results G (GetReduceOp upstream) ->
                      value ∉ GetPatternInputValues P (Reduce c).
Proof.
  unfold GetDownstreamFromCandidate.
  induction candidates as [|c cs IH]; simpl.
  - split; [|done]. intros _ c Hc. by apply elem_of_nil in Hc.
  - destruct (IsDownstreamStmtDependReduceOp G P (GetReduceOp upstream) (Reduce c))
      eqn:Hdep.
    + split; [done|]. intros Hall. exfalso.
      assert (Hf : IsDownstreamStmtDependReduceOp G P (GetReduceOp upstream)
                     (Reduce c) = false).
      { apply IsDownstreamStmtDependReduceOp_false_iff.
        apply Hall, elem_of_cons. by left. }
      congruence.
    + rewrite IH. split.
      * intros Hall c' [->|Hc']%elem_of_cons; [|by apply Hall].
        by apply IsDownstreamStmtDependReduceOp_false_iff.
      * intros Hall c' Hc'. apply Hall, elem_of_cons. by right.
Qed.

Lemma GetDownstreamFromCandidate_Some upstream (candidates : list ReducePattern) c :
  GetDownstreamFromCandidate G P upstream candidates = Some c ->
  c ∈ candidates
  /\ exists value, value ∈ results G (GetReduceOp upstream)
                   /\ value ∈ GetPatternInputValues P (Reduce c).
Proof.
  unfold GetDownstreamFromCandidate.
  induction candidates as [|c' cs IH]; simpl; [done|].
  destruct (IsDownstreamStmtDependReduceOp G P (GetReduceOp upstream) (Reduce c'))
    eqn:Hdep.
  - intros [= ->]. split; [apply elem_of_cons; by left|].
    unfold IsDownstreamStmtDependReduceOp in Hdep.
    apply existsb_exists in Hdep as [value [Hin Hv]].
    exists value. split; [by apply list_elem_of_In|].
    by apply bool_decide_eq_true in Hv.
  - intros Hs. destruct (IH Hs) as [Hc Hv]. split; [|done].
    apply elem_of_cons. by right.
Qed.

(** C1, with the fatal path of [FindUserOp] made explicit: on two reduce
    trees, [ReduceTreeGrownCanMerge] returns false when no reduce pattern of
    the flattened downstream tree has an input value among the results of the
    upstream root reduction.  Otherwise a candidate is found; then, if
    [FindUserOp] on the operations of the downstream tree and result 0 of the
    upstream root reduction ends in a fatal error, so does the call, and if it
    returns the consuming operation (and the signature of the candidate's
    reduction is well formed), the call returns true exactly when no reduced
    dimension of the candidate's reduction is related to a dimension usage of
    that result at the consuming edge. *)
Theorem ReduceTreeGrownCanMerge_verdict upstream downstream up_tree down_tree :
  stmt_pattern upstream = ReduceTree up_tree ->
  stmt_pattern downstream = ReduceTree down_tree ->
  let reduce := GetReduceOp (GetRootPattern up_tree) in
  let depends := fun c =>
    exists value, value ∈ results G reduce
                  /\ value ∈ GetPatternInputValues P (Reduce c) in
  ((forall c, c ∈ FlattenReducePattern down_tree -> ~ depends c) ->
   ReduceTreeGrownCanMerge G P upstream downstream = Ok false)
  /\ ((exists c, c ∈ FlattenReducePattern down_tree /\ depends c) ->
      exists c out,
        GetDownstreamFromCandidate G P (GetRootPattern up_tree)
                                   (FlattenReducePattern down_tree) = Some c
        /\ c ∈ FlattenReducePattern down_tree /\ depends c
        /\ results G reduce !! 0 = Some out
        /\ (forall e, FindUserOp G (tree_ops down_tree) out = Fatal e ->
              ReduceTreeGrownCanMerge G P upstream downstream = Fatal e)
        /\ (forall connect rd nrd,
              FindUserOp G (tree_ops down_tree) out = Ok connect ->
              SplitReduceDims G (GetSignature P (GetReduceOp c)) (GetReduceOp c)
              = Ok (rd, nrd) ->
              exists verdict,
                ReduceTreeGrownCanMerge G P upstream downstream = Ok verdict
                /\ (verdict = true
                    <-> forall d u,
                          d ∈ rd ->
                          u ∈ GetValueUsage G out (GetUsageIdx G out connect) ->
                          IsRelated P u d = false))).
Proof.
  intros Hup Hdown reduce depends. split.
  - intros Hnone. unfold ReduceTreeGrownCanMerge. rewrite Hup, Hdown. simpl.
    assert (Hn : GetDownstreamFromCandidate G P (GetRootPattern up_tree)
                   (FlattenReducePattern down_tree) = None).
    { apply GetDownstreamFromCandidate_None. intros c Hc value Hv Hin.
      apply (Hnone c Hc). by exists value. }
    by rewrite Hn.
  - intros [c0 [Hc0 [value0 [Hv0 Hin0]]]].
    destruct (GetDownstreamFromCandidate G P (GetRootPattern up_tree)
                (FlattenReducePattern down_tree)) as [c|] eqn:Hcand.
    2:{ exfalso.
        pose proof (proj1 (GetDownstreamFromCandidate_None _ _) Hcand c0 Hc0
                      value0 Hv0) as Hno.
        by apply Hno. }
    destruct (GetDownstreamFromCandidate_Some _ _ _ Hcand) as [Hc Hdep].
    assert (Hres : exists out, results G reduce !! 0 = Some out).
    { destruct Hdep as [value [Hv _]]. fold reduce in Hv.
      destruct (results G reduce) as [|out l]; [by apply elem_of_nil in Hv|].
      by exists out. }
    destruct Hres as [out Hres].
    exists c, out. split; [done|]. split; [done|]. split; [done|].
    split; [done|]. split.
    + intros e Hfind. unfold ReduceTreeGrownCanMerge.
      rewrite Hup, Hdown. simpl. rewrite Hcand. unfold result.
      fold reduce. rewrite Hres. simpl. by rewrite Hfind.
    + intros connect rd nrd Hfind Hsplit.
      exists (bool_decide
                (length (SplitFirstIfRelatedBySecond P rd
                           (GetValueUsage G out (GetUsageIdx G out connect))).1
                 = 0)).
      split.
      * unfold ReduceTreeGrownCanMerge.
        rewrite Hup, Hdown. simpl. rewrite Hcand. unfold result.
        fold reduce. rewrite Hres. simpl. rewrite Hfind. simpl.
        rewrite Hsplit. simpl.
        by destruct (SplitFirstIfRelatedBySecond P rd _) as [related other].
      * rewrite bool_decide_eq_true.
        assert (Hrel : forall d,
                  d ∈ (SplitFirstIfRelatedBySecond P rd
                         (GetValueUsage G out (GetUsageIdx G out connect))).1
                  <-> d ∈ rd /\ exists p,
                        p ∈ GetValueUsage G out (GetUsageIdx G out connect)
                        /\ IsRelated P p d = true)
          by (intros d; apply related_spec).
        destruct (SplitFirstIfRelatedBySecond P rd _) as [related other].
        simpl in Hrel. split.
        -- intros Hlen d u Hd Hu.
           destruct (IsRelated P u d) eqn:E; [|done]. exfalso.
           assert (Hin : d ∈ related) by (apply Hrel; eauto).
           destruct related; [by apply elem_of_nil in Hin|done].
        -- intros Hall. destruct related as [|d related]; [done|exfalso].
           assert (Hin : d ∈ d :: related) by (apply elem_of_cons; by left).
           apply Hrel in Hin as [Hd [u [Hu Hr]]].
           rewrite (Hall d u Hd Hu) in Hr. done.
Qed.

(** *** The dispatcher *)

(** C3: [CanFuse] is [ReducePlusTrivialCanMerge] exactly on a reduce tree
    followed by a trivial pattern, [ReduceTreeGrownCanMerge] exactly on two
    reduce trees, and true on every other combination of pattern kinds. *)
Theorem CanFuse_dispatch (upstream downstream : PatternNode) :
  CanFuse SA G P upstream downstream
  = match stmt_pattern upstream, stmt_pattern downstream with
    | ReduceTree _, Trivial _ => ReducePlusTrivialCanMerge SA G P upstream downstream
    | ReduceTree _, ReduceTree _ => ReduceTreeGrownCanMerge G P upstream downstream
    | _, _ => Ok true
    end.
Proof.
  unfold CanFuse.
  by destruct (stmt_pattern upstream), (stmt_pattern downstream).
Qed.

End Properties.


(** ** The properties on the concrete program *)

Section ConcreteProgram.

Import Scenario.

(** The signature of the sum over the second axis: the reduced dimension is the
    axis at index 1, the preserved one the axis at index 0. *)
Lemma SplitReduceDims_classifies_witness :
  SplitReduceDims graph (signature_of 10) 10
  = Ok ([mkDimUsage x 1 0], [mkDimUsage x 0 0]).
Proof.
  destruct (SplitReduceDims_classifies graph (signature_of 10) 10 x
              (mkShardableAxes ["i"; "j"]%string) (mkShardableAxes ["i"%string])
              eq_refl eq_refl eq_refl)
    as (rd & nrd & Hs & _ & _ & Hex).
  destruct (Hex eq_refl eq_refl) as [-> ->]. exact Hs.
Defined.

(** Both splitters partition their inputs on the concrete program. *)
Lemma splitters_partition_witness :
  is_partition_of (input_dims x 0 ["i"; "j"]%string)
                  [mkDimUsage x 1 0] [mkDimUsage x 0 0]
  /\ is_partition_of (GetValueUsage graph wide 0)
       [mkDimUsage wide 0 0; mkDimUsage wide 1 0] [mkDimUsage wide 2 0].
Proof.
  destruct (splitters_partition graph (policy related) (signature_of 10) 10 x
              (mkShardableAxes ["i"; "j"]%string) (mkShardableAxes ["i"%string])
              (GetValueUsage graph wide 0) [mkDimUsage x 0 0]
              eq_refl eq_refl eq_refl)
    as [(rd & nrd & Hs & Hp & _) [Hq _]].
  assert (Hc : SplitReduceDims graph (signature_of 10) 10
               = Ok ([mkDimUsage x 1 0], [mkDimUsage x 0 0])) by reflexivity.
  rewrite Hc in Hs. injection Hs as <- <-.
  split; [exact Hp|exact Hq].
Defined.

(** The broadcast value [wide : S x S x N] after the sum of [x : S x N]: the
    axis of size [N] is the one fake-reduce position. *)
Lemma GetFakeReduceIterIdx_matching_witness :
  GetFakeReduceIterIdx analysis graph (policy related) upstream_node wide_node
  = Ok [2]
  /\ NoDup [2] /\ length [2] <= length [mkDimUsage x 1 0].
Proof.
  destruct (GetFakeReduceIterIdx_matching analysis graph (policy related)
              upstream_node wide_node [mkDimUsage x 1 0] [mkDimUsage x 0 0] wide
              (or_introl eq_refl) eq_refl eq_refl)
    as (fakes & Hf & _ & _ & _ & _ & _ & Hnd & Hlen).
  assert (Hc : GetFakeReduceIterIdx analysis graph (policy related)
                 upstream_node wide_node = Ok [2]) by (vm_compute; reflexivity).
  rewrite Hc in Hf. injection Hf as <-.
  split; [exact Hc|]. split; [exact Hnd|exact Hlen].
Defined.

(** Each branch alone makes the merge legal.  On the broadcast value
    [wide : S x S x N] the non-related output dimensions [{N}] equal the
    reduced dimensions [{N}], while the product [S * S] of the two dimensions
    left after the removal of axis 2 is not [S].  On [centered : S x N] with
    nothing related, [{S, N}] is not [{N}], but axis 1 is a fake-reduce
    position and after its removal the product [S] is the product of the
    preserved dimension; without the removal the product would be [S * N]. *)
Lemma ReducePlusTrivialCanMerge_verdict_witness :
  (GetFakeReduceIterIdx analysis graph (policy related) upstream_node wide_node
   = Ok [2]
   /\ GatherVectorExcept (GetValueUsage graph wide 0) [2]
      = [mkDimUsage wide 0 0; mkDimUsage wide 1 0]
   /\ ElementwiseEqual analysis [mkDimUsage wide 2 0] [mkDimUsage x 1 0] = true
   /\ IsProductSmallerOrEqual analysis
        [mkDimUsage wide 0 0; mkDimUsage wide 1 0] [mkDimUsage x 0 0] = false
   /\ ReducePlusTrivialCanMerge analysis graph (policy related)
        upstream_node wide_node = Ok true)
  /\ (GetFakeReduceIterIdx centered_analysis centered_graph
        (policy (fun _ _ => false)) upstream_node centered_node = Ok [1]
      /\ GatherVectorExcept (GetValueUsage centered_graph centered 0) [1]
         = [mkDimUsage centered 0 0]
      /\ ElementwiseEqual centered_analysis
           [mkDimUsage centered 0 0; mkDimUsage centered 1 0] [mkDimUsage x 1 0]
         = false
      /\ IsProductSmallerOrEqual centered_analysis
           [mkDimUsage centered 0 0; mkDimUsage centered 1 0] [mkDimUsage x 0 0]
         = false
      /\ IsProductSmallerOrEqual centered_analysis
           [mkDimUsage centered 0 0] [mkDimUsage x 0 0] = true
      /\ ReducePlusTrivialCanMerge centered_analysis centered_graph
           (policy (fun _ _ => false)) upstream_node centered_node = Ok true).
Proof.
  split.
  - destruct (ReducePlusTrivialCanMerge_verdict analysis graph (policy related)
                upstream_node wide_node upstream_tree (mkTrivialPattern [20])
                [mkDimUsage x 1 0] [mkDimUsage x 0 0] wide
                eq_refl eq_refl eq_refl eq_refl)
      as (fakes & Hf & _ & _ & _ & _ & Ha & _ & Hfree & _).
    assert (Hc : GetFakeReduceIterIdx analysis graph (policy related)
                   upstream_node wide_node = Ok [2]) by (vm_compute; reflexivity).
    rewrite Hc in Hf. injection Hf as <-.
    split; [exact Hc|]. split; [rewrite Hfree; reflexivity|].
    split; [vm_compute; reflexivity|]. split; [vm_compute; reflexivity|].
    apply Ha; [vm_compute; apply Permutation_refl|vm_compute; reflexivity].
  - destruct (ReducePlusTrivialCanMerge_verdict centered_analysis centered_graph
                (policy (fun _ _ => false))
                upstream_node centered_node upstream_tree (mkTrivialPattern [22])
                [mkDimUsage x 1 0] [mkDimUsage x 0 0] centered
                eq_refl eq_refl eq_refl eq_refl)
      as (fakes & Hf & _ & _ & _ & _ & _ & Hb & Hfree & _).
    assert (Hc : GetFakeReduceIterIdx centered_analysis centered_graph
                   (policy (fun _ _ => false)) upstream_node centered_node
                 = Ok [1]) by (vm_compute; reflexivity).
    rewrite Hc in Hf. injection Hf as <-.
    split; [exact Hc|]. split; [rewrite Hfree; reflexivity|].
    split; [vm_compute; reflexivity|]. split; [vm_compute; reflexivity|].
    split; [vm_compute; reflexivity|].
    apply Hb; vm_compute; reflexivity.
Defined.

(** Growing the tree over [exp]: the reduced axis of the downstream sum is
    related to the output axis of the upstream sum, so the merge is refused. *)
Lemma ReduceTreeGrownCanMerge_verdict_witness :
  ReduceTreeGrownCanMerge graph (policy related) upstream_node chain_node
  = Ok false.
Proof.
  destruct (ReduceTreeGrownCanMerge_verdict graph (policy related)
              upstream_node chain_node upstream_tree chain_tree eq_refl eq_refl)
    as [_ Hsome].
  destruct Hsome as (c & out & Hcand & _ & _ & Hres & _ & Hverdict).
  { exists (mkReducePattern [11] 12). split; [constructor|].
    exists r. split; constructor. }
  assert (Hc : GetDownstreamFromCandidate graph (policy related)
                 (GetRootPattern upstream_tree) (FlattenReducePattern chain_tree)
               = Some (mkReducePattern [11] 12)) by reflexivity.
  rewrite Hc in Hcand. injection Hcand as <-.
  assert (Hr : results graph (GetReduceOp (GetRootPattern upstream_tree)) !! 0
               = Some r) by reflexivity.
  rewrite Hr in Hres. injection Hres as <-.
  destruct (Hverdict 11 [mkDimUsage exp_r 0 0] [] eq_refl eq_refl)
    as (verdict & Hrun & Hiff).
  destruct verdict; [|exact Hrun].
  assert (Hrel : related (mkDimUsage r 0 0) (mkDimUsage exp_r 0 0) = false).
  { apply (proj1 Hiff eq_refl); constructor. }
  discriminate Hrel.
Defined.

(** Without the proviso on [FindUserOp] the verdict rule of the tree-growing
    merge fails: the downstream tree sums [exp r + sin r], so a candidate
    exists and, with a relation that relates nothing, no reduced dimension is
    related to any usage of [r]; yet two operations of the tree consume [r]
    and the call ends in the fatal error instead of returning true. *)
Lemma ReduceTreeGrownCanMerge_two_consumers :
  stmt_pattern upstream_node = ReduceTree upstream_tree
  /\ stmt_pattern diamond_node = ReduceTree diamond_tree
  /\ (exists c value,
        c ∈ FlattenReducePattern diamond_tree
        /\ value ∈ results graph (GetReduceOp (GetRootPattern upstream_tree))
        /\ value ∈ GetPatternInputValues (policy (fun _ _ => false)) (Reduce c))
  /\ (forall d u, IsRelated (policy (fun _ _ => false)) u d = false)
  /\ ReduceTreeGrownCanMerge graph (policy (fun _ _ => false))
       upstream_node diamond_node = Fatal InvalidArgument
  /\ ReduceTreeGrownCanMerge graph (policy (fun _ _ => false))
       upstream_node diamond_node <> Ok true.
Proof.
  split; [reflexivity|]. split; [reflexivity|]. split.
  { exists (mkReducePattern [11; 13; 14] 15), r.
    split; [constructor|]. split; constructor. }
  split; [reflexivity|].
  assert (Hrun : ReduceTreeGrownCanMerge graph (policy (fun _ _ => false))
                   upstream_node diamond_node = Fatal InvalidArgument)
    by (vm_compute; reflexivity).
  split; [exact Hrun|]. rewrite Hrun. discriminate.
Qed.




(** [r] has one consumer among the operations of the chain and two among
    those of the diamond. *)
Lemma FindUserOp_exactly_one_witness :
  FindUserOp graph (tree_ops chain_tree) r = Ok 11
  /\ FindUserOp graph (tree_ops diamond_tree) r = Fatal InvalidArgument.
Proof.
  split.
  - apply (proj1 (proj2 (FindUserOp_exactly_one graph (tree_ops chain_tree) r))).
    reflexivity.
  - apply (proj1 (FindUserOp_exactly_one graph (tree_ops diamond_tree) r)).
    right. vm_compute. lia.
Defined.

(** A lone reduce pattern followed by a reduce tree is an illegal call; a
    reduce tree upstream is not. *)
Lemma GetFakeReduceIterIdx_illegal_call_witness :
  GetFakeReduceIterIdx analysis graph (policy related) lone_reduce_node chain_node
  = Fatal IllegalCall
  /\ GetFakeReduceIterIdx analysis graph (policy related) upstream_node chain_node
     <> Fatal IllegalCall.
Proof.
  split.
  - apply (proj1 (GetFakeReduceIterIdx_illegal_call analysis graph (policy related)
                    lone_reduce_node chain_node)).
    split; reflexivity.
  - apply (proj2 (GetFakeReduceIterIdx_illegal_call analysis graph (policy related)
                    upstream_node chain_node)).
    left. reflexivity.
Defined.

End ConcreteProgram.

(** ** Further properties of the policy *)

Section FurtherProperties.

Context {DimExpr : Type} `{Countable DimExpr}.
Variable SA : ShapeAnalysis DimExpr.
Variable G : Graph.
Variable P : Policy.

(** *** The candidate search *)

(** X1: [GetDownstreamFromCandidate] returns the first candidate, in list
    order, that depends on the upstream reduction: it returns [c] exactly when
    the list splits around [c] with no dependent candidate before it. *)
Theorem GetDownstreamFromCandidate_first upstream (candidates : list ReducePattern) c :
  GetDownstreamFromCandidate G P upstream candidates = Some c
  <-> exists before after,
        candidates = before ++ c :: after
        /\ (forall c', c' ∈ before ->
              IsDownstreamStmtDependReduceOp G P (GetReduceOp upstream) (Reduce c')
              = false)
        /\ IsDownstreamStmtDependReduceOp G P (GetReduceOp upstream) (Reduce c)
           = true.
Proof.
  unfold GetDownstreamFromCandidate.
  induction candidates as [|c0 cs IH]; simpl.
  - split; [done|]. intros (before & after & Heq & _).
    by destruct before.
  - destruct (IsDownstreamStmtDependReduceOp G P (GetReduceOp upstream) (Reduce c0))
      eqn:Hdep.
    + split.
      * intros [= ->]. exists [], cs. split; [done|]. split; [|done].
        intros c' Hc'. by apply elem_of_nil in Hc'.
      * intros (before & after & Heq & Hbefore & Hc).
        destruct before as [|b before]; simpl in Heq.
        -- by injection Heq as -> _.
        -- injection Heq as -> _.
           rewrite (Hbefore b) in Hdep; [done|]. apply elem_of_cons. by left.
    + rewrite IH. split.
      * intros (before & after & -> & Hbefore & Hc).
        exists (c0 :: before), after. split; [done|]. split; [|done].
        intros c' [->|Hc']%elem_of_cons; [done|by apply Hbefore].
      * intros (before & after & Heq & Hbefore & Hc).
        destruct before as [|b before]; simpl in Heq.
        -- injection Heq as -> _. congruence.
        -- injection Heq as -> ->. exists before, after.
           split; [done|]. split; [|done].
           intros c' Hc'. apply Hbefore, elem_of_cons. by right.
Qed.

(** *** The multiset predicate *)

(** X2: [ElementwiseEqual] compares occurrence counts: it is true exactly when
    every symbolic size occurs equally often in the two lists. *)
Theorem ElementwiseEqual_counts (first second : list DimUsage) :
  ElementwiseEqual SA first second = true
  <-> forall k, occurrences SA k first = occurrences SA k second.
Proof.
  rewrite ElementwiseEqual_true_iff, GetDimInfo_eq_iff.
  apply (Permutation_count_occ (decide_rel (=))).
Qed.

(** X3: [ElementwiseEqual] is transitive. *)
Theorem ElementwiseEqual_trans (A B C : list DimUsage) :
  ElementwiseEqual SA A B = true ->
  ElementwiseEqual SA B C = true ->
  ElementwiseEqual SA A C = true.
Proof.
  rewrite !ElementwiseEqual_true_iff. congruence.
Qed.

(** X4: the order of either argument does not matter to [ElementwiseEqual]. *)
Theorem ElementwiseEqual_order_insensitive (A A' B B' : list DimUsage) :
  A ≡ₚ A' -> B ≡ₚ B' ->
  ElementwiseEqual SA A B = ElementwiseEqual SA A' B'.
Proof.
  intros HA HB.
  assert (Hiff : ElementwiseEqual SA A B = true
                 <-> ElementwiseEqual SA A' B' = true).
  { rewrite !ElementwiseEqual_Permutation. unfold symbolic_sizes.
    by rewrite HA, HB. }
  destruct (ElementwiseEqual SA A B), (ElementwiseEqual SA A' B'); try done.
  - symmetry. by apply Hiff.
  - by apply Hiff.
Qed.

(** X5: lists that [ElementwiseEqual] accepts have the same length; in
    particular only the empty list equals the empty list. *)
Theorem ElementwiseEqual_length (A B : list DimUsage) :
  ElementwiseEqual SA A B = true ->
  length A = length B /\ (B = [] -> A = []).
Proof.
  intros HAB. apply ElementwiseEqual_Permutation in HAB.
  apply Permutation_length in HAB. unfold symbolic_sizes in HAB.
  rewrite !length_fmap in HAB. split; [done|].
  intros ->. by destruct A.
Qed.

(** X6: the occurrence map built by [GetDimInfo] holds, for every symbolic
    size of the list and for no other key, its number of occurrences, which is
    at least one; the map has at most as many keys as the list has entries. *)
Theorem GetDimInfo_counts (dims : list DimUsage) :
  (forall k count, GetDimInfo SA dims !! k = Some count
     <-> k ∈ symbolic_sizes SA dims /\ count = Z.of_nat (occurrences SA k dims))
  /\ (forall k count, GetDimInfo SA dims !! k = Some count -> (1 <= count)%Z)
  /\ size (GetDimInfo SA dims) <= length dims.
Proof.
  assert (Hpos : forall k, k ∈ symbolic_sizes SA dims <-> 0 < occurrences SA k dims).
  { intros k. unfold occurrences. rewrite list_elem_of_In.
    apply (count_occ_In (decide_rel (=))). }
  assert (Hlook : forall k count, GetDimInfo SA dims !! k = Some count
     <-> k ∈ symbolic_sizes SA dims /\ count = Z.of_nat (occurrences SA k dims)).
  { intros k count. rewrite GetDimInfo_lookup, Hpos.
    destruct (occurrences SA k dims) as [|n]; split.
    - done.
    - intros [Hlt _]. lia.
    - intros [= <-]. split; [lia|done].
    - intros [_ ->]. done. }
  split; [done|]. split.
  - intros k count [Hin ->]%Hlook. apply Hpos in Hin. lia.
  - clear Hpos Hlook. unfold GetDimInfo.
    induction dims as [|d dims IH] using rev_ind; [done|].
    rewrite fold_left_app, length_app. simpl.
    set (m := fold_left _ dims ∅) in *.
    destruct (m !! GetSymbolicDim SA d) as [count|] eqn:Hm.
    + rewrite map_size_insert_Some by done. lia.
    + rewrite map_size_insert_None by done. lia.
Qed.

(** *** The splitters *)

Lemma filter_all {A : Type} (Q : A -> Prop) `{forall x, Decision (Q x)} (l : list A) :
  (forall x, x ∈ l -> Q x) -> filter Q l = l.
Proof.
  induction l as [|a l IH]; intros Hall; [done|].
  rewrite filter_cons, decide_True by (apply Hall, elem_of_cons; by left).
  f_equal. apply IH. intros x Hx. apply Hall, elem_of_cons. by right.
Qed.

Lemma filter_none {A : Type} (Q : A -> Prop) `{forall x, Decision (Q x)} (l : list A) :
  (forall x, x ∈ l -> ~ Q x) -> filter Q l = [].
Proof.
  induction l as [|a l IH]; intros Hall; [done|].
  rewrite filter_cons, decide_False by (apply Hall, elem_of_cons; by left).
  apply IH. intros x Hx. apply Hall, elem_of_cons. by right.
Qed.

Lemma named_dims_name v u names p :
  p ∈ named_dims v u names -> p.1 ∈ names.
Proof.
  destruct p as [n d]. intros [i [Hi _]]%elem_of_named_dims. simpl.
  by eapply list_elem_of_lookup_2.
Qed.

(** X7: [SplitReduceDims] reads the output axis names as a set: two
    signatures with the same input axes, whose output axes have the same
    names in any order and multiplicity, give the same split. *)
Theorem SplitReduceDims_output_names_as_set sig sig' op inp out out' :
  inputs sig !! 0 = Some inp ->
  inputs sig' !! 0 = Some inp ->
  outputs sig !! 0 = Some out ->
  outputs sig' !! 0 = Some out' ->
  (forall name, name ∈ axis_names out <-> name ∈ axis_names out') ->
  SplitReduceDims G sig op = SplitReduceDims G sig' op.
Proof.
  intros Hin Hin' Hout Hout' Hset.
  destruct (operands G op !! 0) as [v|] eqn:Hv.
  - rewrite (SplitReduceDims_Ok G sig op v inp out Hv Hin Hout).
    rewrite (SplitReduceDims_Ok G sig' op v inp out' Hv Hin' Hout').
    do 3 f_equal; apply list_filter_iff; intros [n d]; simpl;
      by rewrite Hset.
  - unfold SplitReduceDims, operand_source. by rewrite Hv.
Qed.

(** X8: the two extremes of [SplitReduceDims]: when every input axis name is
    an output axis name nothing is reduced, and when no input axis name is an
    output axis name (so also when the output has no axes) everything is. *)
Theorem SplitReduceDims_extremes sig op v inp out :
  operands G op !! 0 = Some v ->
  inputs sig !! 0 = Some inp ->
  outputs sig !! 0 = Some out ->
  ((forall name, name ∈ axis_names inp -> name ∈ axis_names out) ->
   SplitReduceDims G sig op
   = Ok ([], input_dims v (GetUsageIdx G v op) (axis_names inp)))
  /\ ((forall name, name ∈ axis_names inp -> name ∉ axis_names out) ->
      SplitReduceDims G sig op
      = Ok (input_dims v (GetUsageIdx G v op) (axis_names inp), []))
  /\ (axis_names out = [] ->
      SplitReduceDims G sig op
      = Ok (input_dims v (GetUsageIdx G v op) (axis_names inp), [])).
Proof.
  intros Hv Hin Hout.
  rewrite (SplitReduceDims_Ok G sig op v inp out Hv Hin Hout).
  unfold input_dims.
  assert (Hnone : (forall name, name ∈ axis_names inp -> name ∉ axis_names out) ->
    Ok (snd <$> filter (fun p => p.1 ∉ axis_names out)
                  (named_dims v (GetUsageIdx G v op) (axis_names inp)),
        snd <$> filter (fun p => p.1 ∈ axis_names out)
                  (named_dims v (GetUsageIdx G v op) (axis_names inp)))
    = Ok (snd <$> named_dims v (GetUsageIdx G v op) (axis_names inp), [])).
  { intros Hall.
    rewrite (filter_all (fun p : string * DimUsage => p.1 ∉ axis_names out))
      by (intros p Hp; by apply Hall, (named_dims_name _ _ _ _ Hp)).
    rewrite (filter_none (fun p : string * DimUsage => p.1 ∈ axis_names out))
      by (intros p Hp; by apply Hall, (named_dims_name _ _ _ _ Hp)).
    done. }
  split; [|split; [done|]].
  - intros Hall.
    rewrite (filter_none (fun p : string * DimUsage => p.1 ∉ axis_names out))
      by (intros p Hp Hn; by apply Hn, Hall, (named_dims_name _ _ _ _ Hp)).
    rewrite (filter_all (fun p : string * DimUsage => p.1 ∈ axis_names out))
      by (intros p Hp; by apply Hall, (named_dims_name _ _ _ _ Hp)).
    done.
  - intros Hempty. apply Hnone. intros name _. rewrite Hempty.
    apply not_elem_of_nil.
Qed.

(** X9: with nothing to be related with, [SplitFirstIfRelatedBySecond] puts
    every target on the non-related side. *)
Theorem SplitFirstIfRelatedBySecond_empty_reference (targets : list DimUsage) :
  SplitFirstIfRelatedBySecond P targets [] = ([], targets).
Proof.
  rewrite SplitFirstIfRelatedBySecond_filter. f_equal.
  - by apply filter_none.
  - by apply filter_all.
Qed.

(** X10: [SplitFirstIfRelatedBySecond] reads the reference list as a set:
    its order and repetitions do not change the split. *)
Theorem SplitFirstIfRelatedBySecond_reference_as_set
    (targets related_with related_with' : list DimUsage) :
  (forall d, d ∈ related_with <-> d ∈ related_with') ->
  SplitFirstIfRelatedBySecond P targets related_with
  = SplitFirstIfRelatedBySecond P targets related_with'.
Proof.
  intros Hset. rewrite !SplitFirstIfRelatedBySecond_filter.
  assert (Heq : forall t, is_related_to P related_with t
                          = is_related_to P related_with' t).
  { intros t. rewrite !is_related_to_existsb.
    destruct (existsb _ related_with) eqn:E1, (existsb _ related_with') eqn:E2;
      try done.
    - apply existsb_exists in E1 as [p [Hp Hr]].
      apply list_elem_of_In, Hset in Hp.
      rewrite existsb_false_iff in E2. by rewrite (E2 p Hp) in Hr.
    - apply existsb_exists in E2 as [p [Hp Hr]].
      apply list_elem_of_In, Hset in Hp.
      rewrite existsb_false_iff in E1. by rewrite (E1 p Hp) in Hr. }
  f_equal; apply list_filter_iff; intros t; by rewrite Heq.
Qed.

(** X11: splitting again what [SplitFirstIfRelatedBySecond] returned, against
    the same reference list, changes nothing: the related part stays related
    and the non-related part stays non-related. *)
Theorem SplitFirstIfRelatedBySecond_idempotent (targets related_with : list DimUsage) :
  SplitFirstIfRelatedBySecond P
    (SplitFirstIfRelatedBySecond P targets related_with).1 related_with
  = ((SplitFirstIfRelatedBySecond P targets related_with).1, [])
  /\ SplitFirstIfRelatedBySecond P
       (SplitFirstIfRelatedBySecond P targets related_with).2 related_with
     = ([], (SplitFirstIfRelatedBySecond P targets related_with).2).
Proof.
  rewrite !SplitFirstIfRelatedBySecond_filter. simpl. split; f_equal.
  - apply filter_all. by intros t [Ht _]%list_elem_of_filter.
  - apply filter_none. intros t [Ht _]%list_elem_of_filter Hn. by apply Hn.
  - apply filter_none. by intros t [Ht _]%list_elem_of_filter.
  - apply filter_all. by intros t [Ht _]%list_elem_of_filter.
Qed.

(** X12: [SplitFirstIfRelatedBySecond] works target by target: the split of a
    concatenation is the concatenation of the splits. *)
Theorem SplitFirstIfRelatedBySecond_app (targets1 targets2 related_with : list DimUsage) :
  SplitFirstIfRelatedBySecond P (targets1 ++ targets2) related_with
  = ((SplitFirstIfRelatedBySecond P targets1 related_with).1
       ++ (SplitFirstIfRelatedBySecond P targets2 related_with).1,
     (SplitFirstIfRelatedBySecond P targets1 related_with).2
       ++ (SplitFirstIfRelatedBySecond P targets2 related_with).2).
Proof.
  rewrite !SplitFirstIfRelatedBySecond_filter. simpl.
  by rewrite !filter_app.
Qed.

(** X13: a larger reference list only moves targets from the non-related to
    the related side. *)
Theorem SplitFirstIfRelatedBySecond_more_references
    (targets related_with related_with' : list DimUsage) :
  (forall d, d ∈ related_with -> d ∈ related_with') ->
  (SplitFirstIfRelatedBySecond P targets related_with).1
    `sublist_of` (SplitFirstIfRelatedBySecond P targets related_with').1
  /\ (SplitFirstIfRelatedBySecond P targets related_with').2
       `sublist_of` (SplitFirstIfRelatedBySecond P targets related_with).2.
Proof.
  intros Hsub. rewrite !SplitFirstIfRelatedBySecond_filter. simpl.
  assert (Hmono : forall t, is_related_to P related_with t = true ->
                            is_related_to P related_with' t = true).
  { intros t. rewrite !is_related_to_existsb, !existsb_exists.
    intros [p [Hp Hr]]. exists p. split; [|done].
    by apply list_elem_of_In, Hsub, list_elem_of_In. }
  induction targets as [|t ts [IH1 IH2]]; [done|].
  rewrite !filter_cons.
  destruct (is_related_to P related_with t) eqn:E.
  - rewrite (Hmono t E). simpl. split; [by apply sublist_skip|done].
  - destruct (is_related_to P related_with' t); simpl.
    + split; [by apply sublist_cons|by apply sublist_cons].
    + split; [done|by apply sublist_skip].
Qed.

(** *** The product predicate *)

(** X14: the empty list is not neutral on the right: against an empty second
    list the first product is compared with the literal 0, so a non-empty
    first list with a positive static product is refused, although the empty
    first list is accepted against anything. *)
Theorem IsProductSmallerOrEqual_empty_second (first : list DimUsage) a :
  first <> [] ->
  as_int64 SA (of_int64 SA 0%Z) = Some 0%Z ->
  as_int64 SA (GetProductDimExprForValueDims SA first) = Some a ->
  IsProductSmallerOrEqual SA first [] = (a <=? 0)%Z
  /\ ((0 < a)%Z -> IsProductSmallerOrEqual SA first [] = false)
  /\ IsProductSmallerOrEqual SA [] first = true.
Proof.
  intros Hne Hzero Ha. destruct first as [|d first']; [done|].
  assert (Hrun : IsProductSmallerOrEqual SA (d :: first') [] = (a <=? 0)%Z).
  { unfold IsProductSmallerOrEqual. rewrite Ha. simpl. by rewrite Hzero. }
  split; [done|]. split; [|done].
  intros Hpos. rewrite Hrun. by apply Z.leb_gt.
Qed.

(** X15: when the oracle proves every expression equal to itself, every list
    is accepted against itself. *)
Theorem IsProductSmallerOrEqual_refl (dims : list DimUsage) :
  (forall e, IsEqual SA e e = true) ->
  IsProductSmallerOrEqual SA dims dims = true.
Proof.
  intros Hrefl. destruct dims as [|d dims']; [done|].
  unfold IsProductSmallerOrEqual.
  destruct (as_int64 SA (GetProductDimExprForValueDims SA (d :: dims'))) as [a|];
    [apply Z.leb_refl|apply Hrefl].
Qed.

(** X16: on non-empty lists with statically known products the predicate is
    the order of the integers: any two lists are comparable one way or the
    other, and the comparison is transitive. *)
Theorem IsProductSmallerOrEqual_static_order (first second third : list DimUsage) a b c :
  first <> [] -> second <> [] ->
  as_int64 SA (GetProductDimExprForValueDims SA first) = Some a ->
  as_int64 SA (GetProductDimExprForValueDims SA second) = Some b ->
  as_int64 SA (GetProductDimExprForValueDims SA third) = Some c ->
  (IsProductSmallerOrEqual SA first second = true
   \/ IsProductSmallerOrEqual SA second first = true)
  /\ (IsProductSmallerOrEqual SA first second = true ->
      IsProductSmallerOrEqual SA second third = true ->
      IsProductSmallerOrEqual SA first third = true).
Proof.
  intros Hf Hs Ha Hb Hc.
  destruct first as [|d1 l1]; [done|]. destruct second as [|d2 l2]; [done|].
  unfold IsProductSmallerOrEqual. rewrite Ha, Hb, Hc.
  rewrite !Z.leb_le. lia.
Qed.

(** X17: outside the static case the predicate is an equality test: with a
    symmetric oracle, swapping two non-empty lists of which one has no static
    product does not change the answer. *)
Theorem IsProductSmallerOrEqual_symbolic_symmetric (first second : list DimUsage) :
  (forall e1 e2, IsEqual SA e1 e2 = IsEqual SA e2 e1) ->
  first <> [] -> second <> [] ->
  as_int64 SA (GetProductDimExprForValueDims SA first) = None
  \/ as_int64 SA (GetProductDimExprForValueDims SA second) = None ->
  IsProductSmallerOrEqual SA first second
  = IsProductSmallerOrEqual SA second first.
Proof.
  intros Hsym Hf Hs Hnone.
  destruct first as [|d1 l1]; [done|]. destruct second as [|d2 l2]; [done|].
  unfold IsProductSmallerOrEqual.
  destruct Hnone as [Hn|Hn]; rewrite Hn.
  - destruct (as_int64 SA (GetProductDimExprForValueDims SA (d2 :: l2)));
      apply Hsym.
  - destruct (as_int64 SA (GetProductDimExprForValueDims SA (d1 :: l1)));
      apply Hsym.
Qed.

(** *** The single consumer *)

(** X18: [FindUserOp] reads the candidates as a set: their order and
    repetitions do not change what it returns. *)
Theorem FindUserOp_candidates_as_set (candidates candidates' : list Operation)
    (value : Value) :
  (forall op, op ∈ candidates <-> op ∈ candidates') ->
  FindUserOp G candidates value = FindUserOp G candidates' value.
Proof.
  intros Hset. rewrite !FindUserOp_unfold.
  assert (Heq : filter (fun op => op ∈ candidates) (uses G value)
                = filter (fun op => op ∈ candidates') (uses G value))
    by (apply list_filter_iff; intros op; apply Hset).
  by rewrite Heq.
Qed.

(** X19: uses are counted, not operations: a candidate that owns two uses of
    the value (the value is two of its operands) makes [FindUserOp] end in
    the fatal error even when it is the only consumer. *)
Theorem FindUserOp_repeated_use (candidates : list Operation) (value : Value)
    op (l1 l2 l3 : list Operation) :
  op ∈ candidates ->
  uses G value = l1 ++ op :: l2 ++ op :: l3 ->
  FindUserOp G candidates value = Fatal InvalidArgument.
Proof.
  intros Hop Huses. rewrite FindUserOp_unfold, Huses.
  rewrite filter_app, filter_cons, decide_True by done.
  rewrite filter_app, filter_cons, decide_True by done.
  destruct (filter _ l1) as [|a [|b l]]; simpl.
  - by destruct (filter _ l2).
  - done.
  - done.
Qed.

(** *** The fake-reduce indices *)

Lemma fake_match_no_reorder (rds : list DimUsage) st :
  fold_left (fake_match_step SA []) rds st = st.
Proof.
  induction rds as [|r rds IH]; [done|]. simpl.
  destruct st as [visited matched]. simpl. apply IH.
Qed.

(** X20: every index that [GetFakeReduceIterIdx] returns is an axis of the
    downstream output; the dimension at that axis is related to no preserved
    upstream dimension and is symbolically equal to some upstream reduced
    dimension. *)
Theorem GetFakeReduceIterIdx_in_bounds upstream downstream rd nrd out :
  holds_ReduceTreePattern (stmt_pattern upstream) = true
  \/ holds_TrivialPattern (stmt_pattern downstream) = true ->
  SplitReduceDims G (GetSignature P (sink_op upstream)) (sink_op upstream)
  = Ok (rd, nrd) ->
  results G (sink_op downstream) !! 0 = Some out ->
  exists fakes,
    GetFakeReduceIterIdx SA G P upstream downstream = Ok fakes
    /\ forall i, i ∈ fakes ->
         i < GetRank G out
         /\ (forall p, p ∈ nrd -> IsRelated P p (mkDimUsage out i 0) = false)
         /\ exists reduce_dim, reduce_dim ∈ rd
              /\ SymbolicEqualTo SA (mkDimUsage out i 0) reduce_dim = true.
Proof.
  intros Hpre Hsplit Hout. eexists. split; [by apply GetFakeReduceIterIdx_Ok|].
  set (reorder := (SplitFirstIfRelatedBySecond P (GetValueUsage G out 0) nrd).2).
  destruct (fake_loop_invariant SA reorder rd) as (_ & _ & _ & Hsub & Hall).
  fold (fake_matching SA reorder rd) in Hsub, Hall.
  intros i [[r t] [-> Hm]]%list_elem_of_fmap. simpl.
  assert (Hr : r ∈ rd).
  { eapply elem_of_sublist; [|exact Hsub].
    apply list_elem_of_fmap. by exists (r, t). }
  apply Hall in Hm as [Ht Heq].
  apply non_related_spec in Ht as [Ht Hnr].
  apply elem_of_GetValueUsage in Ht as [j [Hj ->]]. simpl.
  split; [done|]. split; [done|]. by exists r.
Qed.

(** X21: with no upstream reduced dimension, or with no non-related
    downstream dimension, there is nothing to match and
    [GetFakeReduceIterIdx] returns the empty list. *)
Theorem GetFakeReduceIterIdx_nothing_to_match upstream downstream rd nrd out :
  holds_ReduceTreePattern (stmt_pattern upstream) = true
  \/ holds_TrivialPattern (stmt_pattern downstream) = true ->
  SplitReduceDims G (GetSignature P (sink_op upstream)) (sink_op upstream)
  = Ok (rd, nrd) ->
  results G (sink_op downstream) !! 0 = Some out ->
  rd = [] \/ (SplitFirstIfRelatedBySecond P (GetValueUsage G out 0) nrd).2 = [] ->
  GetFakeReduceIterIdx SA G P upstream downstream = Ok [].
Proof.
  intros Hpre Hsplit Hout Hnothing.
  rewrite (GetFakeReduceIterIdx_Ok SA G P upstream downstream rd nrd out)
    by done.
  destruct Hnothing as [-> | ->]; [done|].
  unfold fake_matching. by rewrite fake_match_no_reorder.
Qed.

(** *** The merge rules *)

Lemma FindUserOp_Fatal (candidates : list Operation) (value : Value) e :
  FindUserOp G candidates value = Fatal e -> e = InvalidArgument.
Proof.
  rewrite FindUserOp_unfold.
  destruct (filter _ _) as [|op [|op' l]]; congruence.
Qed.

(** X22: [ReduceTreeGrownCanMerge] on a node that does not hold a reduce tree
    ends in the bad-variant-access error of [std::get]. *)
Theorem ReduceTreeGrownCanMerge_bad_variant (upstream downstream : PatternNode) :
  holds_ReduceTreePattern (stmt_pattern upstream) = false
  \/ holds_ReduceTreePattern (stmt_pattern downstream) = false ->
  ReduceTreeGrownCanMerge G P upstream downstream = Fatal BadVariantAccess.
Proof.
  unfold ReduceTreeGrownCanMerge.
  destruct (stmt_pattern upstream), (stmt_pattern downstream); simpl;
    intros [Hf|Hf]; done.
Qed.

(** X23: growing a tree is always legal when there is nothing to relate: once
    the candidate and the single consumer are found, a candidate reduction
    without reduced dimensions, or an upstream result of rank 0, gives
    true. *)
Theorem ReduceTreeGrownCanMerge_nothing_to_relate
    upstream downstream up_tree down_tree c out connect rd nrd :
  stmt_pattern upstream = ReduceTree up_tree ->
  stmt_pattern downstream = ReduceTree down_tree ->
  GetDownstreamFromCandidate G P (GetRootPattern up_tree)
                             (FlattenReducePattern down_tree) = Some c ->
  results G (GetReduceOp (GetRootPattern up_tree)) !! 0 = Some out ->
  FindUserOp G (tree_ops down_tree) out = Ok connect ->
  SplitReduceDims G (GetSignature P (GetReduceOp c)) (GetReduceOp c) = Ok (rd, nrd) ->
  rd = [] \/ GetRank G out = 0 ->
  ReduceTreeGrownCanMerge G P upstream downstream = Ok true.
Proof.
  intros Hup Hdown Hcand Hres Hfind Hsplit Hnothing.
  unfold ReduceTreeGrownCanMerge. rewrite Hup, Hdown. simpl.
  rewrite Hcand. unfold result. rewrite Hres. simpl. rewrite Hfind. simpl.
  rewrite Hsplit. simpl.
  destruct Hnothing as [-> | Hrank]; [done|].
  unfold GetValueUsage. rewrite Hrank. simpl.
  rewrite SplitFirstIfRelatedBySecond_filter. simpl.
  by rewrite (filter_none (fun t => is_related_to P [] t = true)).
Qed.

(** X24: when the upstream is a reduce tree or the downstream a trivial
    pattern (the guard of [GetFakeReduceIterIdx]), a downstream output of rank
    0 can always be attached: with a well-formed upstream signature,
    [ReducePlusTrivialCanMerge] returns true whatever the upstream dimensions
    are. *)
Theorem ReducePlusTrivialCanMerge_scalar_output upstream downstream rd nrd out :
  holds_ReduceTreePattern (stmt_pattern upstream) = true
  \/ holds_TrivialPattern (stmt_pattern downstream) = true ->
  SplitReduceDims G (GetSignature P (sink_op upstream)) (sink_op upstream)
  = Ok (rd, nrd) ->
  results G (sink_op downstream) !! 0 = Some out ->
  GetRank G out = 0 ->
  ReducePlusTrivialCanMerge SA G P upstream downstream = Ok true.
Proof.
  intros Hpre Hsplit Hout Hrank.
  assert (Husage : GetValueUsage G out 0 = [])
    by (unfold GetValueUsage; by rewrite Hrank).
  unfold ReducePlusTrivialCanMerge. rewrite Hsplit. unfold result.
  rewrite Hout. simpl.
  rewrite (GetFakeReduceIterIdx_Ok SA G P upstream downstream rd nrd out)
    by done.
  rewrite Husage. simpl. by rewrite orb_true_r.
Qed.

(** X25: the guard of [GetFakeReduceIterIdx] shows through
    [ReducePlusTrivialCanMerge]: with a well-formed upstream signature and a
    downstream result, the call ends in the illegal-call error exactly when
    the upstream is no reduce tree and the downstream no trivial pattern, and
    returns a verdict otherwise. *)
Theorem ReducePlusTrivialCanMerge_illegal_call upstream downstream rd nrd out :
  SplitReduceDims G (GetSignature P (sink_op upstream)) (sink_op upstream)
  = Ok (rd, nrd) ->
  results G (sink_op downstream) !! 0 = Some out ->
  (holds_ReduceTreePattern (stmt_pattern upstream) = false
   /\ holds_TrivialPattern (stmt_pattern downstream) = false ->
   ReducePlusTrivialCanMerge SA G P upstream downstream = Fatal IllegalCall)
  /\ (holds_ReduceTreePattern (stmt_pattern upstream) = true
      \/ holds_TrivialPattern (stmt_pattern downstream) = true ->
      exists verdict,
        ReducePlusTrivialCanMerge SA G P upstream downstream = Ok verdict).
Proof.
  intros Hsplit Hout. split.
  - intros [Hu Hd]. unfold ReducePlusTrivialCanMerge. rewrite Hsplit.
    unfold result. rewrite Hout. simpl.
    destruct (SplitFirstIfRelatedBySecond P _ _) as [rel nonrel].
    unfold GetFakeReduceIterIdx. by rewrite Hu, Hd.
  - intros Hpre. unfold ReducePlusTrivialCanMerge. rewrite Hsplit.
    unfold result. rewrite Hout. simpl.
    rewrite (GetFakeReduceIterIdx_Ok SA G P upstream downstream rd nrd out)
      by done.
    destruct (SplitFirstIfRelatedBySecond P _ _) as [rel nonrel]. simpl.
    by eexists.
Qed.

(** *** The dispatcher *)

(** X26: [CanFuse] never ends in the illegal-call or the bad-variant-access
    error: it reaches the merge rules only on the pattern kinds they accept.
    Its fatal outcomes are a missing operand, result or signature entry, and,
    on two reduce trees only, the failed search for the single consumer. *)
Theorem CanFuse_fatal_kinds (upstream downstream : PatternNode) e :
  CanFuse SA G P upstream downstream = Fatal e ->
  e = OutOfRange
  \/ (e = InvalidArgument
      /\ holds_ReduceTreePattern (stmt_pattern upstream) = true
      /\ holds_ReduceTreePattern (stmt_pattern downstream) = true).
Proof.
  unfold CanFuse.
  destruct (stmt_pattern upstream) as [| |up_tree] eqn:Hup; simpl; try done.
  destruct (stmt_pattern downstream) as [triv| |down_tree] eqn:Hdown; simpl;
    try done.
  - unfold ReducePlusTrivialCanMerge.
    destruct (SplitReduceDims G _ _) as [[rd nrd]|e'] eqn:Hsplit; simpl.
    2:{ intros [= <-]. left. by eapply SplitReduceDims_Fatal. }
    unfold result.
    destruct (results G (sink_op downstream) !! 0) as [out|] eqn:Hout; simpl.
    2:{ intros [= <-]. by left. }
    rewrite (GetFakeReduceIterIdx_Ok SA G P upstream downstream rd nrd out);
      [|left; by rewrite Hup|done|done].
    by destruct (SplitFirstIfRelatedBySecond P _ _) as [rel nonrel].
  - unfold ReduceTreeGrownCanMerge. rewrite Hup, Hdown. simpl.
    destruct (GetDownstreamFromCandidate G P _ _) as [c|]; [|done].
    unfold result.
    destruct (results G _ !! 0) as [out|]; simpl.
    2:{ intros [= <-]. by left. }
    destruct (FindUserOp G _ out) as [connect|e'] eqn:Hfind; simpl.
    2:{ intros [= <-]. right. by rewrite (FindUserOp_Fatal _ _ _ Hfind). }
    destruct (SplitReduceDims G _ _) as [[rd nrd]|e'] eqn:Hsplit; simpl.
    2:{ intros [= <-]. left. by eapply SplitReduceDims_Fatal. }
    by destruct (SplitFirstIfRelatedBySecond P _ _) as [rel nonrel].
Qed.

(** *** Fake-reduce indices under the elementwise branch *)

Section Greedy.

Hypothesis SymbolicEqualTo_sizes : forall a b,
  SymbolicEqualTo SA a b = true <-> GetSymbolicDim SA a = GetSymbolicDim SA b.






End Greedy.

End FurtherProperties.
(** ** The further properties on the concrete programs *)

Section FurtherConcrete.

Import Scenario.

Lemma ElementwiseEqual_trans_witness :
  ElementwiseEqual analysis [mkDimUsage wide 2 0] [mkDimUsage x 1 0] = true.
Proof.
  apply (ElementwiseEqual_trans analysis
           [mkDimUsage wide 2 0] [mkDimUsage x 1 0] [mkDimUsage x 1 0]);
    vm_compute; reflexivity.
Defined.

Lemma ElementwiseEqual_order_insensitive_witness :
  ElementwiseEqual analysis [mkDimUsage wide 0 0; mkDimUsage wide 2 0]
                            [mkDimUsage x 0 0; mkDimUsage x 1 0]
  = ElementwiseEqual analysis [mkDimUsage wide 2 0; mkDimUsage wide 0 0]
                              [mkDimUsage x 1 0; mkDimUsage x 0 0].
Proof.
  apply (ElementwiseEqual_order_insensitive analysis); apply perm_swap.
Defined.

Lemma ElementwiseEqual_length_witness :
  length [mkDimUsage wide 2 0] = length [mkDimUsage x 1 0].
Proof.
  apply (ElementwiseEqual_length analysis [mkDimUsage wide 2 0] [mkDimUsage x 1 0]).
  vm_compute. reflexivity.
Defined.

Lemma SplitReduceDims_output_names_as_set_witness :
  SplitReduceDims graph (signature_of 10) 10
  = SplitReduceDims graph repeated_output_signature 10.
Proof.
  apply (SplitReduceDims_output_names_as_set graph (signature_of 10)
           repeated_output_signature 10
           (mkShardableAxes ["i"; "j"]%string) (mkShardableAxes ["i"%string])
           (mkShardableAxes ["i"; "i"]%string) eq_refl eq_refl eq_refl eq_refl).
  intros name. simpl. rewrite !elem_of_cons. tauto.
Defined.

(** The sum of [exp r] to a scalar reduces every input axis. *)
Lemma SplitReduceDims_extremes_witness :
  SplitReduceDims graph (signature_of 12) 12 = Ok ([mkDimUsage exp_r 0 0], []).
Proof.
  apply (SplitReduceDims_extremes graph (signature_of 12) 12 exp_r
           (mkShardableAxes ["i"%string]) (mkShardableAxes [])
           eq_refl eq_refl eq_refl).
  reflexivity.
Defined.

Lemma SplitFirstIfRelatedBySecond_reference_as_set_witness :
  SplitFirstIfRelatedBySecond (policy related) (GetValueUsage graph wide 0)
    [mkDimUsage x 0 0]
  = SplitFirstIfRelatedBySecond (policy related) (GetValueUsage graph wide 0)
      [mkDimUsage x 0 0; mkDimUsage x 0 0].
Proof.
  apply SplitFirstIfRelatedBySecond_reference_as_set.
  intros d. rewrite !elem_of_cons. tauto.
Defined.

Lemma SplitFirstIfRelatedBySecond_more_references_witness :
  (SplitFirstIfRelatedBySecond (policy related) (GetValueUsage graph wide 0) []).1
    `sublist_of`
  (SplitFirstIfRelatedBySecond (policy related) (GetValueUsage graph wide 0)
     [mkDimUsage x 0 0]).1.
Proof.
  apply (SplitFirstIfRelatedBySecond_more_references (policy related)
           (GetValueUsage graph wide 0) [] [mkDimUsage x 0 0]).
  intros d Hd. by apply elem_of_nil in Hd.
Defined.

(** Static shape [4; 8]: the axis of size 8 against the empty list. *)
Lemma IsProductSmallerOrEqual_empty_second_witness :
  IsProductSmallerOrEqual static_analysis [mkDimUsage 0 1 0] [] = false
  /\ IsProductSmallerOrEqual static_analysis [] [mkDimUsage 0 1 0] = true.
Proof.
  assert (Hne : [mkDimUsage 0 1 0] <> []) by discriminate.
  destruct (IsProductSmallerOrEqual_empty_second static_analysis
              [mkDimUsage 0 1 0] 8%Z Hne eq_refl eq_refl) as (_ & Hpos & Hleft).
  split; [apply Hpos; lia|exact Hleft].
Defined.

Lemma IsProductSmallerOrEqual_refl_witness :
  IsProductSmallerOrEqual analysis [mkDimUsage x 0 0; mkDimUsage x 1 0]
                                   [mkDimUsage x 0 0; mkDimUsage x 1 0] = true.
Proof.
  apply (IsProductSmallerOrEqual_refl analysis).
  intros e. simpl. by apply bool_decide_eq_true.
Defined.

(** Static shapes [4; 8] and [4; 2]: 2 <= 4 and 4 <= 8 give 2 <= 8. *)
Lemma IsProductSmallerOrEqual_static_order_witness :
  IsProductSmallerOrEqual static_analysis [mkDimUsage 1 1 0] [mkDimUsage 0 1 0]
  = true.
Proof.
  assert (H1 : [mkDimUsage 1 1 0] <> []) by discriminate.
  assert (H2 : [mkDimUsage 0 0 0] <> []) by discriminate.
  apply (IsProductSmallerOrEqual_static_order static_analysis
           [mkDimUsage 1 1 0] [mkDimUsage 0 0 0] [mkDimUsage 0 1 0]
           2%Z 4%Z 8%Z H1 H2 eq_refl eq_refl eq_refl);
    vm_compute; reflexivity.
Defined.

Lemma IsProductSmallerOrEqual_symbolic_symmetric_witness :
  IsProductSmallerOrEqual analysis [mkDimUsage x 0 0] [mkDimUsage x 1 0]
  = IsProductSmallerOrEqual analysis [mkDimUsage x 1 0] [mkDimUsage x 0 0].
Proof.
  apply (IsProductSmallerOrEqual_symbolic_symmetric analysis).
  - intros e1 e2. simpl. apply bool_decide_ext. split; congruence.
  - discriminate.
  - discriminate.
  - left. reflexivity.
Defined.

Lemma FindUserOp_candidates_as_set_witness :
  FindUserOp graph [11; 12] r = FindUserOp graph [12; 11; 11] r.
Proof.
  apply FindUserOp_candidates_as_set.
  intros op. rewrite !elem_of_cons. tauto.
Defined.

(** The product of value 0 with itself is its only consumer, twice. *)
Lemma FindUserOp_repeated_use_witness :
  FindUserOp small_graph [30] 0 = Fatal InvalidArgument.
Proof.
  apply (FindUserOp_repeated_use small_graph [30] 0 30 [] [] []).
  - apply elem_of_cons. by left.
  - reflexivity.
Defined.

Lemma GetFakeReduceIterIdx_in_bounds_witness :
  exists fakes,
    GetFakeReduceIterIdx analysis graph (policy related) upstream_node wide_node
    = Ok fakes
    /\ forall i, i ∈ fakes -> i < 3.
Proof.
  destruct (GetFakeReduceIterIdx_in_bounds analysis graph (policy related)
              upstream_node wide_node [mkDimUsage x 1 0] [mkDimUsage x 0 0] wide
              (or_introl eq_refl) eq_refl eq_refl) as (fakes & Hf & Hall).
  exists fakes. split; [exact Hf|].
  intros i Hi. exact (proj1 (Hall i Hi)).
Defined.

(** With a relation that relates everything, no downstream dimension is left
    to match. *)
Lemma GetFakeReduceIterIdx_nothing_to_match_witness :
  GetFakeReduceIterIdx analysis graph (policy (fun _ _ => true))
    upstream_node wide_node = Ok [].
Proof.
  apply (GetFakeReduceIterIdx_nothing_to_match analysis graph
           (policy (fun _ _ => true)) upstream_node wide_node
           [mkDimUsage x 1 0] [mkDimUsage x 0 0] wide
           (or_introl eq_refl) eq_refl eq_refl).
  right. reflexivity.
Defined.

Lemma ReduceTreeGrownCanMerge_bad_variant_witness :
  ReduceTreeGrownCanMerge graph (policy related) lone_reduce_node chain_node
  = Fatal BadVariantAccess.
Proof.
  apply ReduceTreeGrownCanMerge_bad_variant. left. reflexivity.
Defined.

(** A sum to a scalar followed by a reduction of that scalar: legal although
    the relation relates everything. *)
Lemma ReduceTreeGrownCanMerge_nothing_to_relate_witness :
  ReduceTreeGrownCanMerge small_graph small_policy
    scalar_upstream_node scalar_downstream_node = Ok true.
Proof.
  apply (ReduceTreeGrownCanMerge_nothing_to_relate small_graph small_policy
           scalar_upstream_node scalar_downstream_node
           scalar_upstream_tree scalar_downstream_tree
           (mkReducePattern [] 41) 3 41 [] []
           eq_refl eq_refl eq_refl eq_refl eq_refl eq_refl).
  left. reflexivity.
Defined.

(** A sum to the scalar 3 followed by the square root of that scalar: a
    reduce tree and a trivial pattern whose output has rank 0. *)
Lemma ReducePlusTrivialCanMerge_scalar_output_witness :
  stmt_pattern scalar_upstream_node = ReduceTree scalar_upstream_tree
  /\ stmt_pattern root_node = Trivial (mkTrivialPattern [42])
  /\ ReducePlusTrivialCanMerge analysis scalar_graph small_policy
       scalar_upstream_node root_node = Ok true.
Proof.
  split; [reflexivity|]. split; [reflexivity|].
  apply (ReducePlusTrivialCanMerge_scalar_output analysis scalar_graph small_policy
           scalar_upstream_node root_node [mkDimUsage 2 0 0] [] 5
           (or_introl eq_refl) eq_refl eq_refl eq_refl).
Defined.

Lemma ReducePlusTrivialCanMerge_illegal_call_witness :
  ReducePlusTrivialCanMerge analysis graph (policy related)
    lone_reduce_node chain_node = Fatal IllegalCall.
Proof.
  apply (ReducePlusTrivialCanMerge_illegal_call analysis graph (policy related)
           lone_reduce_node chain_node [mkDimUsage x 1 0] [mkDimUsage x 0 0] sum_exp
           eq_refl eq_refl).
  split; reflexivity.
Defined.

(** The two consumers of [r] in the diamond: the one fatal outcome of the
    dispatcher that is not a missing entry. *)
Lemma CanFuse_fatal_kinds_witness :
  InvalidArgument = OutOfRange
  \/ (InvalidArgument = InvalidArgument
      /\ holds_ReduceTreePattern (stmt_pattern upstream_node) = true
      /\ holds_ReduceTreePattern (stmt_pattern diamond_node) = true).
Proof.
  apply (CanFuse_fatal_kinds analysis graph (policy (fun _ _ => false))
           upstream_node diamond_node InvalidArgument).
  vm_compute. reflexivity.
Defined.


End FurtherConcrete.
